(** * magichue.light: the transport layer of the MagicHue bulb client

    A shallow embedding of [src/magichue/light.py]: the abstract light
    ([AbstractLight]), the socket-owning transport ([LocalLight]) and the
    relayed transport ([RemoteLight]), together with the Python built-ins
    they rely on ([int(s, 16)], [datetime(...)], [struct.unpack]) and a
    model of the TCP socket the direct transport owns. *)

From Stdlib Require Import List ZArith NArith Arith Bool String Ascii Lia.
From Stdlib Require Strings.Byte.
Import ListNotations.

Local Open Scope Z_scope.
Local Open Scope list_scope.

(* ================================================================== *)
(** ** Exceptions and results *)

(** The errors of the operating system's socket layer that [send] and [recv]
    raise: [socket.timeout], [ConnectionResetError], [BrokenPipeError]. *)
Inductive sock_error : Type :=
| socket_timeout
| ConnectionResetError
| BrokenPipeError.

(** The exceptions that can leave the methods of [light.py].  The first three
    are imported from [magichue.exceptions]; [InvalidData] carries the three
    values that the source formats into its message.  The others are
    Python's own. *)
Inductive exn : Type :=
| InvalidData (expect got : nat) (data : list Z)
| DeviceOffline
| DeviceDisconnected
| OSError (e : sock_error)
| ValueError
| IndexError
| TypeError.

(** The outcome of a call: a value, an exception, or no outcome at all (a
    loop that was still running when its fuel ran out). *)
Inductive result (A : Type) : Type :=
| Return (a : A)
| Raise (e : exn)
| Diverge.

Arguments Return {A} a.
Arguments Raise {A} e.
Arguments Diverge {A}.

(** A method of an object of type [S]: it returns or raises, and leaves the
    object in a new state either way. *)
Definition M (S A : Type) : Type := S -> result A * S.

Definition ret {S A} (a : A) : M S A := fun s => (Return a, s).

Definition raise {S A} (e : exn) : M S A := fun s => (Raise e, s).

Definition bind {S A B} (m : M S A) (k : A -> M S B) : M S B :=
  fun s =>
    match m s with
    | (Return a, s') => k a s'
    | (Raise e, s') => (Raise e, s')
    | (Diverge, s') => (Diverge, s')
    end.

(** A computation that cannot touch the object, lifted. *)
Definition lift {S A} (r : result A) : M S A := fun s => (r, s).

Declare Scope py_scope.
Delimit Scope py_scope with py.
Notation "x <- m ;; k" := (bind m (fun x => k))
  (at level 61, m at next level, right associativity) : py_scope.
Notation "m ;; k" := (bind m (fun _ => k))
  (at level 61, right associativity) : py_scope.

Definition rbind {A B} (r : result A) (k : A -> result B) : result B :=
  match r with
  | Return a => k a
  | Raise e => Raise e
  | Diverge => Diverge
  end.

(** A list comprehension [[f x for x in xs]] whose body may raise: the
    elements are computed from left to right and the first exception ends
    it. *)
Fixpoint comprehension {A B} (f : A -> result B) (xs : list A)
  : result (list B) :=
  match xs with
  | [] => Return []
  | x :: xs' =>
      rbind (f x) (fun y =>
      rbind (comprehension f xs') (fun ys => Return (y :: ys)))
  end.

(* ================================================================== *)
(** ** Python values and built-ins *)

(** What [_send_command] hands back: [None], or a tuple of integers. *)
Inductive pyval : Type :=
| PyNone
| PyTuple (items : list Z).

(** [data[i]] for a constant index [i >= 0]. *)
Definition getitem (data : pyval) (i : nat) : result Z :=
  match data with
  | PyNone => Raise TypeError
  | PyTuple items =>
      match nth_error items i with
      | Some x => Return x
      | None => Raise IndexError
      end
  end.

(** [range(start, stop, step)] for a positive step. *)
Fixpoint range_from (fuel start stop step : nat) : list nat :=
  match fuel with
  | O => []
  | S fuel' =>
      if (start <? stop)%nat
      then start :: range_from fuel' (start + step) stop step
      else []
  end.

Definition range (start stop step : nat) : list nat :=
  range_from stop start stop step.

(** *** [int(s, 16)]

    Strings are over 8-bit characters (code points below 256).  CPython's
    [int] skips white space on both sides, takes one optional sign, one
    optional [0x] or [0X] prefix (which may be followed by a single
    underscore), and then needs at least one digit; underscores may only
    stand alone between two digits.  Anything else is a [ValueError]. *)

(** The white space that [int] skips.  Below 127 it goes by the C
    character class: tab, line feed, vertical tab, form feed, carriage
    return and the blank (the separators 28 to 31 are not skipped).  From
    127 on it goes by Unicode, which below 256 has the next-line character
    133 and the no-break space 160. *)
Definition isspace (c : ascii) : bool :=
  let n := N_of_ascii c in
  ((9 <=? n) && (n <=? 13) || (n =? 32)
   || (n =? 133) || (n =? 160))%N.

(** The value of a character as a digit in base 16, if it is one. *)
Definition digit_value (c : ascii) : option Z :=
  let n := N_of_ascii c in
  if ((48 <=? n) && (n <=? 57))%N then Some (Z.of_N n - 48)
  else if ((97 <=? n) && (n <=? 102))%N then Some (Z.of_N n - 87)
  else if ((65 <=? n) && (n <=? 70))%N then Some (Z.of_N n - 55)
  else None.

Fixpoint lstrip (s : list ascii) : list ascii :=
  match s with
  | c :: s' => if isspace c then lstrip s' else s
  | [] => []
  end.

Definition strip (s : list ascii) : list ascii :=
  rev (lstrip (rev (lstrip s))).

(** The digits, with [prev] telling whether the previous character was an
    underscore; the whole rest of the string has to be consumed. *)
Fixpoint scan_digits (prev : bool) (acc : Z) (s : list ascii) : option Z :=
  match s with
  | [] => if prev then None else Some acc
  | c :: s' =>
      if Ascii.eqb c "_"
      then if prev then None else scan_digits true acc s'
      else match digit_value c with
           | Some d => scan_digits false (16 * acc + d) s'
           | None => None
           end
  end.

Definition skip_prefix (s : list ascii) : list ascii :=
  match s with
  | c :: x :: s' =>
      if Ascii.eqb c "0" && (Ascii.eqb x "x" || Ascii.eqb x "X")
      then match s' with
           | u :: s'' => if Ascii.eqb u "_" then s'' else s'
           | [] => s'
           end
      else s
  | _ => s
  end.

Definition unsigned16 (s : list ascii) : option Z :=
  match skip_prefix s with
  | [] => None
  | (c :: _) as digits =>
      if Ascii.eqb c "_" then None else scan_digits false 0 digits
  end.

Definition int16 (s : string) : result Z :=
  let parsed :=
    match strip (list_ascii_of_string s) with
    | [] => None
    | (c :: s') as unsigned =>
        if Ascii.eqb c "-" then option_map Z.opp (unsigned16 s')
        else if Ascii.eqb c "+" then unsigned16 s'
        else unsigned16 unsigned
    end in
  match parsed with
  | Some v => Return v
  | None => Raise ValueError
  end.

(** *** [struct.unpack('!%dB' % len(data), data)]

    Every byte becomes the unsigned integer it encodes; the format is built
    from the length of [data] itself, so the call cannot fail. *)
Definition unpack (data : list Byte.byte) : list Z :=
  map (fun b => Z.of_N (Byte.to_N b)) data.

(** *** [datetime(year, month, day, hour, minute, second)]

    The constructor checks its fields ([MINYEAR] is 1, [MAXYEAR] is 9999) and
    raises [ValueError] when one is out of range. *)
Record datetime : Type := mk_datetime {
  year : Z; month : Z; day : Z; hour : Z; minute : Z; second : Z
}.

Definition _is_leap (y : Z) : bool :=
  (y mod 4 =? 0) && (negb (y mod 100 =? 0) || (y mod 400 =? 0)).

Definition _days_in_month (y m : Z) : Z :=
  if (m =? 2) && _is_leap y then 29
  else nth (Z.to_nat m) [-1; 31; 28; 31; 30; 31; 30; 31; 31; 30; 31; 30; 31] 0.

Definition new_datetime (y mo d h mi s : Z) : result datetime :=
  if (1 <=? y) && (y <=? 9999)
     && (1 <=? mo) && (mo <=? 12)
     && (1 <=? d) && (d <=? _days_in_month y mo)
     && (0 <=? h) && (h <=? 23)
     && (0 <=? mi) && (mi <=? 59)
     && (0 <=? s) && (s <=? 59)
  then Return (mk_datetime y mo d h mi s)
  else Raise ValueError.

(* ================================================================== *)
(** ** Commands and the cached status *)

(** A command class of [magichue.commands], as [light.py] uses it: its name
    (for the log), [cmd.byte_string()] and [cmd.response_len]. *)
Record Command : Type := {
  __name__ : string;
  byte_string : list Byte.byte;
  response_len : nat
}.

(** Modelled from the spec: the class [Status] of [magichue.magichue], which
    is not among the sources at hand.  The fields are those of the spec's data
    model, under the names [light.py] reads them by ([on], [mode],
    [bulb_type], [w], [cw]) and [r], [g], [b] for the three colour bytes. *)
Record Status : Type := {
  on : bool;
  mode : Z;
  bulb_type : Z;
  r : Z; g : Z; b : Z;
  w : Z;
  cw : Z
}.

(** [status.on = value] *)
Definition set_on (value : bool) (st : Status) : Status :=
  {| on := value; mode := mode st; bulb_type := bulb_type st;
     r := r st; g := g st; b := b st; w := w st; cw := cw st |}.

(** What [light.py] imports and does not define: the four command classes,
    [Command.from_array], and the two methods of [Status] that convert it from
    and to device bytes.  They are parameters of the development. *)
Class Imports : Type := {
  TurnON : Command;
  TurnOFF : Command;
  QueryStatus : Command;
  QueryCurrentTime : Command;
  from_array : list Z -> Command;
  make_data : M Status (list Z);
  parse : pyval -> M Status unit
}.

(* ================================================================== *)
(** ** The socket

    The network is a script: what each coming call of [select], [send] and
    [recv] will answer.  When a script is used up the network is silent:
    [select] finds nothing readable, [send] goes through, and [recv] times
    out.  A script is finite, so a peer that never stops pushing data (on
    which the flush loop of the source never ends) is outside the model.
    Every call is written to [calls], with its answer. *)

Inductive io : Type :=
| IoSelect (readable : bool)
| IoSend (data : list Byte.byte) (answer : option sock_error)
| IoRecv (bufsize : nat) (answer : list Byte.byte + sock_error).

Record socket : Type := {
  _closed : bool;
  selects : list bool;
  sends : list (option sock_error);
  recvs : list (list Byte.byte + sock_error);
  calls : list io
}.

(** What the next call of each kind will answer. *)
Definition next_select (k : socket) : bool := hd false (selects k).

Definition next_send (k : socket) : option sock_error := hd None (sends k).

Definition next_recv (k : socket) : list Byte.byte + sock_error :=
  hd (inr socket_timeout) (recvs k).

(** [select.select([sock], [], [], timeout)]: is the socket readable? *)
Definition select : M socket bool :=
  fun k =>
    let readable := next_select k in
    (Return readable,
     {| _closed := _closed k; selects := tl (selects k); sends := sends k;
        recvs := recvs k; calls := calls k ++ [IoSelect readable] |}).

(** [sock.send(data)]; the source does not look at the count it returns. *)
Definition send (data : list Byte.byte) : M socket unit :=
  fun k =>
    let answer := next_send k in
    (match answer with None => Return tt | Some e => Raise (OSError e) end,
     {| _closed := _closed k; selects := selects k; sends := tl (sends k);
        recvs := recvs k; calls := calls k ++ [IoSend data answer] |}).

(** [sock.recv(bufsize)].  The script may answer with any number of bytes; a
    real socket hands over [bufsize] at most, and none when the peer has
    closed the connection. *)
Definition recv (bufsize : nat) : M socket (list Byte.byte) :=
  fun k =>
    let answer := next_recv k in
    (match answer with inl data => Return data | inr e => Raise (OSError e) end,
     {| _closed := _closed k; selects := selects k; sends := sends k;
        recvs := tl (recvs k); calls := calls k ++ [IoRecv bufsize answer] |}).

Local Open Scope py_scope.

(* ================================================================== *)
(** ** class AbstractLight *)

Module AbstractLight.

(** The interface: the cached [status] and the abstract method
    [_send_command]. *)
Class t (L : Type) : Type := {
  status : L -> Status;
  with_status : Status -> L -> L;
  _send_command : Command -> bool -> M L pyval
}.

Section Methods.
Context `{Imports} {L : Type} `{t L}.

(** A method of [self.status], run on the light that owns it. *)
Definition on_status {A} (m : M Status A) : M L A :=
  fun self =>
    let (res, st) := m (status self) in (res, with_status st self).

Definition _get_status_data : M L pyval :=
  data <- _send_command QueryStatus false ;;
  ret data.

Definition get_current_time : M L datetime :=
  data <- _send_command QueryCurrentTime false ;;
  y <- lift (getitem data 3) ;;
  mo <- lift (getitem data 4) ;;
  d <- lift (getitem data 5) ;;
  h <- lift (getitem data 6) ;;
  mi <- lift (getitem data 7) ;;
  s <- lift (getitem data 8) ;;
  bulb_date <- lift (new_datetime (y + 2000) mo d h mi s) ;;
  ret bulb_date.

Definition turn_on : M L unit :=
  _send_command TurnON true ;;
  on_status (fun st => (Return tt, set_on true st)).

Definition turn_off : M L unit :=
  _send_command TurnOFF true ;;
  on_status (fun st => (Return tt, set_on false st)).

Definition _update_status : M L unit :=
  data <- _get_status_data ;;
  on_status (parse data).

Definition _apply_status : M L unit :=
  data <- on_status make_data ;;
  let cmd := from_array data in
  _send_command cmd true ;;
  ret tt.

End Methods.

End AbstractLight.

(* ================================================================== *)
(** ** class LocalLight(AbstractLight) *)

Module LocalLight.

(** The constructor and [_connect] only open the connection; a light here
    is one that exists, with its socket open or closed. *)
Record t : Type := {
  ipaddr : string;
  _sock : socket;
  status : Status
}.

Definition port : Z := 5577.
Definition timeout : Z := 1.

(** A call on [self._sock]. *)
Definition on_sock {A} (op : M socket A) : M t A :=
  fun self =>
    let (res, k) := op (_sock self) in
    (res, {| ipaddr := ipaddr self; _sock := k; status := status self |}).

Definition sock_closed : M t bool :=
  fun self => (Return (_closed (_sock self)), self).

Definition _send (data : list Byte.byte) : M t unit :=
  closed <- sock_closed ;;
  if closed : bool then raise DeviceDisconnected
  else on_sock (send data).

Definition _receive (length : nat) : M t (list Byte.byte) :=
  closed <- sock_closed ;;
  if closed : bool then raise DeviceDisconnected
  else
    data <- on_sock (recv length) ;;
    ret data.

(** The [while True] loop of [_flush_receive_buffer]. *)
Fixpoint flush_loop (fuel : nat) : M t unit :=
  match fuel with
  | O => fun self => (Diverge, self)
  | S fuel' =>
      read_sock <- on_sock select ;;
      if negb read_sock then ret tt
      else
        data <- _receive 255 ;;
        match data with
        | [] => raise DeviceDisconnected
        | _ :: _ => flush_loop fuel'
        end
  end.

(** Every turn of the loop takes one answer of [select] off the script, and
    the loop ends when [select] finds nothing: one turn more than the
    script has answers is enough (lemma [flush_loop_fuel] below). *)
Definition _flush_receive_buffer : M t unit :=
  closed <- sock_closed ;;
  if closed : bool then raise DeviceDisconnected
  else fun self => flush_loop (S (List.length (selects (_sock self)))) self.

Definition _send_command (cmd : Command) (send_only : bool) : M t pyval :=
  if send_only then
    _send (byte_string cmd) ;;
    ret PyNone
  else
    _flush_receive_buffer ;;
    _send (byte_string cmd) ;;
    data <- _receive (response_len cmd) ;;
    let decoded_data := unpack data in
    if (List.length data =? response_len cmd)%nat
    then ret (PyTuple decoded_data)
    else raise (InvalidData (response_len cmd)
                            (List.length decoded_data) decoded_data).

#[global] Instance light : AbstractLight.t t := {
  AbstractLight.status := status;
  AbstractLight.with_status st self :=
    {| ipaddr := ipaddr self; _sock := _sock self; status := st |};
  AbstractLight._send_command := _send_command
}.

End LocalLight.

(* ================================================================== *)
(** ** class RemoteLight(AbstractLight) *)

Module RemoteLight.

(** The relay ([magichue.http_api.RemoteAPI]) is an outside collaborator:
    an object of some type [Api] with the two methods [light.py] calls.
    [_send_request] answers with the hexadecimal text of the reply. *)
Class RemoteAPI (Api : Type) : Type := {
  api_send_command : Command -> string -> M Api pyval;
  api_send_request : Command -> string -> M Api string
}.

Record t (Api : Type) : Type := {
  api : Api;
  macaddr : string;
  status : Status
}.

Arguments api {Api} _.
Arguments macaddr {Api} _.
Arguments status {Api} _.

Definition str2hexarray (hexstr : string) : result (list Z) :=
  comprehension (fun i => int16 (substring i 2 hexstr))
                (range 0 (String.length hexstr) 2).

Section Methods.
Context {Api : Type} `{RemoteAPI Api}.

(** A call on [self.api]. *)
Definition on_api {A} (op : M Api A) : M (t Api) A :=
  fun self =>
    let (res, a) := op (api self) in
    (res, {| api := a; macaddr := macaddr self; status := status self |}).

Definition _send_request (cmd : Command) : M (t Api) string :=
  fun self => on_api (api_send_request cmd (macaddr self)) self.

Definition _send_command (cmd : Command) (send_only : bool)
  : M (t Api) pyval :=
  if send_only then
    fun self => on_api (api_send_command cmd (macaddr self)) self
  else
    hexstr <- _send_request cmd ;;
    data <- lift (str2hexarray hexstr) ;;
    if negb (List.length data =? response_len cmd)%nat
    then raise (InvalidData (response_len cmd) (List.length data) data)
    else ret (PyTuple data).

#[global] Instance light : AbstractLight.t (t Api) := {
  AbstractLight.status := status;
  AbstractLight.with_status st self :=
    {| api := api self; macaddr := macaddr self; status := st |};
  AbstractLight._send_command := _send_command
}.

End Methods.

End RemoteLight.

(* ================================================================== *)
(** ** What a run leaves in the socket's log *)

(** The calls one run of the flush loop makes, with its outcome: it reads
    away what [select] reports ([recv] of up to 255 bytes at a time) until
    [select] reports nothing; an empty read or a socket error ends it
    early. *)
Inductive flushed : result unit -> list io -> Prop :=
| flushed_quiet :
    flushed (Return tt) [IoSelect false]
| flushed_stale c data res evs :
    flushed res evs ->
    flushed res (IoSelect true :: IoRecv 255 (inl (c :: data)) :: evs)
| flushed_eof :
    flushed (Raise DeviceDisconnected) [IoSelect true; IoRecv 255 (inl [])]
| flushed_error e :
    flushed (Raise (OSError e)) [IoSelect true; IoRecv 255 (inr e)].

(** The calls a query makes on an open socket, with its outcome: a flush;
    if the flush came to its end, the write of the command; if the write
    went through, one read of [response_len] bytes. *)
Inductive query_run (cmd : Command) : result pyval -> list io -> Prop :=
| query_flush_failed e evs :
    flushed (Raise e) evs ->
    query_run cmd (Raise e) evs
| query_send_failed e evs :
    flushed (Return tt) evs ->
    query_run cmd (Raise (OSError e))
              (evs ++ [IoSend (byte_string cmd) (Some e)])
| query_recv_failed e evs :
    flushed (Return tt) evs ->
    query_run cmd (Raise (OSError e))
              (evs ++ [IoSend (byte_string cmd) None;
                       IoRecv (response_len cmd) (inr e)])
| query_reply data evs :
    flushed (Return tt) evs ->
    List.length data = response_len cmd ->
    query_run cmd (Return (PyTuple (unpack data)))
              (evs ++ [IoSend (byte_string cmd) None;
                       IoRecv (response_len cmd) (inl data)])
| query_malformed data evs :
    flushed (Return tt) evs ->
    List.length data <> response_len cmd ->
    query_run cmd
              (Raise (InvalidData (response_len cmd) (List.length data)
                                  (unpack data)))
              (evs ++ [IoSend (byte_string cmd) None;
                       IoRecv (response_len cmd) (inl data)]).

(** [self'] is [self] after the calls [evs] on its socket: nothing but the
    socket's scripts and log has changed. *)
Definition after_calls (self : LocalLight.t) (evs : list io)
  (self' : LocalLight.t) : Prop :=
  LocalLight.ipaddr self' = LocalLight.ipaddr self /\
  LocalLight.status self' = LocalLight.status self /\
  _closed (LocalLight._sock self') = _closed (LocalLight._sock self) /\
  calls (LocalLight._sock self') = calls (LocalLight._sock self) ++ evs.

(** A call that writes and does nothing else. *)
Definition is_send (ev : io) : bool :=
  match ev with
  | IoSend _ _ => true
  | _ => false
  end.

(** A run from [self] to [self'] that made at most one call on the socket,
    a [send]: no answer of [select] or [recv] was taken off the scripts. *)
Definition wrote_only (self self' : LocalLight.t) : Prop :=
  exists evs,
    calls (LocalLight._sock self') = calls (LocalLight._sock self) ++ evs /\
    forallb is_send evs = true /\
    (List.length evs <= 1)%nat /\
    selects (LocalLight._sock self') = selects (LocalLight._sock self) /\
    recvs (LocalLight._sock self') = recvs (LocalLight._sock self).



(* ================================================================== *)
(** ** Hexadecimal notation, as the reference for [str2hexarray] *)

(** Where a character stands in a string, if it occurs there. *)
Fixpoint position (c : ascii) (s : string) : option nat :=
  match s with
  | EmptyString => None
  | String c' s' =>
      if Ascii.eqb c c' then Some O else option_map S (position c s')
  end.

(** A hexadecimal digit is worth its place among the sixteen digits, in
    either case of the letters. *)
Definition hexdigit (c : ascii) : option Z :=
  match position c "0123456789abcdef", position c "0123456789ABCDEF" with
  | Some d, _ => Some (Z.of_nat d)
  | None, Some d => Some (Z.of_nat d)
  | None, None => None
  end.

Definition is_hexdigit (c : ascii) : bool :=
  match hexdigit c with Some _ => true | None => false end.

(** The number a string of hexadecimal digits denotes in base 16. *)
Definition hex_value (s : string) : Z :=
  fold_left (fun acc c => 16 * acc + match hexdigit c with
                                     | Some d => d
                                     | None => 0
                                     end)
            (list_ascii_of_string s) 0.

(* ================================================================== *)
(** ** Example data

    Concrete commands, lights and a relay, to run the definitions on.  The
    byte values are examples; nothing below depends on them. *)

Import Strings.Byte.

Definition example_imports : Imports := {|
  TurnON := {| __name__ := "TurnON";
               byte_string := [x71; x23; x0f; xa3]; response_len := 0 |};
  TurnOFF := {| __name__ := "TurnOFF";
                byte_string := [x71; x24; x0f; xa4]; response_len := 0 |};
  QueryStatus := {| __name__ := "QueryStatus";
                    byte_string := [x81; x8a; x8b; x96]; response_len := 14 |};
  QueryCurrentTime := {| __name__ := "QueryCurrentTime";
                         byte_string := [x11; x1a; x1b; x0f; x55];
                         response_len := 12 |};
  from_array := fun data =>
    {| __name__ := "Command";
       byte_string :=
         map (fun x => match Byte.of_N (Z.to_N x) with
                       | Some c => c
                       | None => x00
                       end) data;
       response_len := 0 |};
  make_data := fun st => (Return [49; r st; g st; b st; w st; 0; 15; 15], st);
  parse := fun _ st => (Return tt, st)
|}.

Definition example_status : Status :=
  {| on := false; mode := 97; bulb_type := 68;
     r := 255; g := 0; b := 128; w := 64; cw := 0 |}.

(** A clock reply of twelve bytes; offsets 3 to 8 hold 25, 6, 15, 13, 30, 0. *)
Definition example_clock_reply : list byte :=
  [x0f; x11; x14; x19; x06; x0f; x0d; x1e; x00; x07; x00; x9a].

Definition example_light (closed : bool) (sel : list bool)
  (snd : list (option sock_error)) (rcv : list (list byte + sock_error))
  : LocalLight.t :=
  {| LocalLight.ipaddr := "192.168.0.20";
     LocalLight._sock := {| _closed := closed; selects := sel; sends := snd;
                            recvs := rcv; calls := [] |};
     LocalLight.status := example_status |}.

(** A relay that answers every request with the next of its canned replies. *)
Definition example_api : RemoteLight.RemoteAPI (list string) := {|
  RemoteLight.api_send_command := fun _ _ replies => (Return PyNone, replies);
  RemoteLight.api_send_request := fun _ _ replies =>
    match replies with
    | [] => (Return EmptyString, [])
    | reply :: replies' => (Return reply, replies')
    end
|}.

Definition example_remote (replies : list string) : RemoteLight.t (list string) :=
  {| RemoteLight.api := replies;
     RemoteLight.macaddr := "AABBCCDDEEFF";
     RemoteLight.status := example_status |}.

(* ================================================================== *)
(** ** Further notions *)

(** The light [self] once its socket has made the calls [evs] and its
    scripts of [select] and [recv] have come down to [sel] and [rcv]. *)
Definition advanced (self : LocalLight.t) (sel : list bool)
  (rcv : list (list byte + sock_error)) (evs : list io) : LocalLight.t :=
  {| LocalLight.ipaddr := LocalLight.ipaddr self;
     LocalLight._sock :=
       {| _closed := _closed (LocalLight._sock self);
          selects := sel;
          sends := sends (LocalLight._sock self);
          recvs := rcv;
          calls := calls (LocalLight._sock self) ++ evs |};
     LocalLight.status := LocalLight.status self |}.

(** The calls that read away the stale [chunks], one after the other. *)
Definition stale_calls (chunks : list (list byte)) : list io :=
  flat_map (fun chunk => [IoSelect true; IoRecv 255 (inl chunk)]) chunks.

(** An integer that is the value of a byte. *)
Definition is_byte (x : Z) : Prop := 0 <= x <= 255.

(** The hexadecimal text of a byte string, two lower-case digits a byte,
    as [bytes.hex()] writes it: what a relay sends for the raw reply. *)
Definition hexchar (n : N) : ascii :=
  match String.get (N.to_nat n) "0123456789abcdef" with
  | Some c => c
  | None => "0"
  end.

Definition hexlify (data : list byte) : string :=
  fold_right
    (fun x s => String (hexchar (N.div (Byte.to_N x) 16))
                       (String (hexchar (N.modulo (Byte.to_N x) 16)) s))
    EmptyString data.

(** The characters that can stand in a string [int(s, 16)] accepts: digits,
    white space, the signs, the underscore and the [x] of the prefix. *)
Definition is_intchar (c : ascii) : bool :=
  is_hexdigit c || isspace c
  || Ascii.eqb c "_" || Ascii.eqb c "+" || Ascii.eqb c "-"
  || Ascii.eqb c "x" || Ascii.eqb c "X".

(** The example imports, with a clock query that declares [n] bytes. *)
Definition example_imports_clock (n : nat) : Imports := {|
  TurnON := @TurnON example_imports;
  TurnOFF := @TurnOFF example_imports;
  QueryStatus := @QueryStatus example_imports;
  QueryCurrentTime := {| __name__ := "QueryCurrentTime";
                         byte_string := [x11; x1a; x1b; x0f; x55];
                         response_len := n |};
  from_array := @from_array example_imports;
  make_data := @make_data example_imports;
  parse := @parse example_imports
|}.

(** A status reply of fourteen bytes. *)
Definition example_status_reply : list byte :=
  [x81; x44; x23; x61; x21; x10; xff; x00; x80; x40; x04; x00; x0f; xee].

(* ================================================================== *)
(** * Properties *)

(** ** The definitions at work *)

Example int16_ff : int16 "ff" = Return 255.
Proof. reflexivity. Qed.

Example int16_blank_sign : int16 " -0x1F " = Return (-31).
Proof. reflexivity. Qed.

(** The separator 28 is no white space for [int]; the no-break space 160
    is. *)
Example int16_separator :
  int16 (String (ascii_of_nat 28) "7") = Raise ValueError.
Proof. reflexivity. Qed.

Example int16_no_break_space : int16 (String (ascii_of_nat 160) "7") = Return 7.
Proof. reflexivity. Qed.

Example int16_underscore : int16 "a_" = Raise ValueError.
Proof. reflexivity. Qed.

Example int16_prefix_only : int16 "0x" = Raise ValueError.
Proof. reflexivity. Qed.

Example range_odd : range 0 5 2 = [0; 2; 4]%nat.
Proof. reflexivity. Qed.

Example str2hexarray_odd : RemoteLight.str2hexarray "0f1" = Return [15; 1].
Proof. reflexivity. Qed.

Example str2hexarray_not_hex :
  RemoteLight.str2hexarray "0fzz" = Raise ValueError.
Proof. reflexivity. Qed.

Example new_datetime_leap : new_datetime 2024 2 29 0 0 0
                            = Return (mk_datetime 2024 2 29 0 0 0).
Proof. reflexivity. Qed.

Example new_datetime_month_0 : new_datetime 2025 0 1 0 0 0 = Raise ValueError.
Proof. reflexivity. Qed.

(** A clock query on a socket with one stale byte in its buffer. *)
Example get_current_time_run :
  let self := example_light false [true] []
                [inl [x30]; inl example_clock_reply] in
  let out := @AbstractLight.get_current_time example_imports _ _ self in
  fst out = Return (mk_datetime 2025 6 15 13 30 0) /\
  calls (LocalLight._sock (snd out)) =
    [IoSelect true; IoRecv 255 (inl [x30]); IoSelect false;
     IoSend [x11; x1a; x1b; x0f; x55] None;
     IoRecv 12 (inl example_clock_reply)].
Proof. split; reflexivity. Qed.

(** A reply that is cut short. *)
Example get_current_time_short :
  let self := example_light false [] [] [inl [x0f; x11; x14; x19]] in
  fst (@AbstractLight.get_current_time example_imports _ _ self) =
  Raise (InvalidData 12 4 [15; 17; 20; 25]).
Proof. reflexivity. Qed.

(** Switching on: on a closed socket, and on an open one. *)
Example turn_on_closed :
  let self := example_light true [] [] [] in
  @AbstractLight.turn_on example_imports _ _ self
  = (Raise DeviceDisconnected, self).
Proof. reflexivity. Qed.

Example turn_on_open :
  let self := example_light false [] [] [] in
  let out := @AbstractLight.turn_on example_imports _ _ self in
  fst out = Return tt /\
  on (LocalLight.status (snd out)) = true /\
  calls (LocalLight._sock (snd out)) = [IoSend [x71; x23; x0f; xa3] None].
Proof. repeat split. Qed.

(** ** The direct transport *)

Lemma after_calls_refl self : after_calls self [] self.
Proof. unfold after_calls; rewrite app_nil_r; auto. Qed.

Lemma after_calls_trans self evs1 s1 evs2 s2 :
  after_calls self evs1 s1 -> after_calls s1 evs2 s2 ->
  after_calls self (evs1 ++ evs2) s2.
Proof.
  unfold after_calls; intros (a & b & c & d) (a' & b' & c' & d').
  rewrite a', b', c', d', a, b, c, d, app_assoc; auto.
Qed.

(** The flush loop, with more fuel than the script has answers of [select],
    comes to an end: it never runs out of fuel. *)
Lemma flush_loop_fuel fuel : forall self,
  _closed (LocalLight._sock self) = false ->
  (List.length (selects (LocalLight._sock self)) < fuel)%nat ->
  exists evs,
    flushed (fst (LocalLight.flush_loop fuel self)) evs /\
    after_calls self evs (snd (LocalLight.flush_loop fuel self)).
Proof.
  induction fuel as [|fuel IH]; intros self Hopen Hfuel; [lia|].
  destruct self as [ip [cl sel snd rcv log] st]; cbn in Hopen, Hfuel; subst cl.
  destruct sel as [|[|] sel].
  - exists [IoSelect false]; split; [constructor|].
    unfold after_calls; cbn; auto.
  - destruct rcv as [|[[|c data]|e] rcv].
    + exists [IoSelect true; IoRecv 255 (inr socket_timeout)]; split.
      * constructor.
      * unfold after_calls; cbn. rewrite <- app_assoc; auto.
    + exists [IoSelect true; IoRecv 255 (inl [])]; split.
      * constructor.
      * unfold after_calls; cbn. rewrite <- app_assoc; auto.
    + cbn in Hfuel.
      match goal with
      | |- context [LocalLight.flush_loop (S fuel) ?s] =>
          assert (Hstep : exists s1,
            LocalLight.flush_loop (S fuel) s = LocalLight.flush_loop fuel s1 /\
            after_calls s [IoSelect true; IoRecv 255 (inl (c :: data))] s1 /\
            _closed (LocalLight._sock s1) = false /\
            selects (LocalLight._sock s1) = sel)
      end.
      { eexists; split; [reflexivity|]. cbn. unfold after_calls; cbn.
        rewrite <- app_assoc; auto 6. }
      destruct Hstep as (s1 & -> & Hs1 & Hop1 & Hsel1).
      destruct (IH s1 Hop1) as (evs & Hfl & Hafter); [rewrite Hsel1; lia|].
      exists (IoSelect true :: IoRecv 255 (inl (c :: data)) :: evs); split.
      * constructor; exact Hfl.
      * exact (after_calls_trans _ _ _ _ _ Hs1 Hafter).
    + exists [IoSelect true; IoRecv 255 (inr e)]; split.
      * constructor.
      * unfold after_calls; cbn. rewrite <- app_assoc; auto.
  - exists [IoSelect false]; split; [constructor|].
    unfold after_calls; cbn; auto.
Qed.

Lemma bind_eq {S A B} (m : M S A) (k : A -> M S B) s :
  bind m k s =
  match m s with
  | (Return a, s') => k a s'
  | (Raise e, s') => (Raise e, s')
  | (Diverge, s') => (Diverge, s')
  end.
Proof. reflexivity. Qed.

Lemma _send_eq data self :
  LocalLight._send data self =
  if _closed (LocalLight._sock self) then (Raise DeviceDisconnected, self)
  else LocalLight.on_sock (send data) self.
Proof.
  unfold LocalLight._send, bind, LocalLight.sock_closed, raise.
  destruct (_closed (LocalLight._sock self)); reflexivity.
Qed.

Lemma _receive_eq n self :
  LocalLight._receive n self =
  if _closed (LocalLight._sock self) then (Raise DeviceDisconnected, self)
  else LocalLight.on_sock (recv n) self.
Proof.
  unfold LocalLight._receive, LocalLight.sock_closed, raise.
  cbv [bind]. destruct (_closed (LocalLight._sock self)); [reflexivity|].
  destruct (LocalLight.on_sock (recv n) self) as [[data|e|] s']; reflexivity.
Qed.

Lemma _flush_receive_buffer_eq self :
  LocalLight._flush_receive_buffer self =
  if _closed (LocalLight._sock self) then (Raise DeviceDisconnected, self)
  else LocalLight.flush_loop
         (S (List.length (selects (LocalLight._sock self)))) self.
Proof.
  unfold LocalLight._flush_receive_buffer, bind, LocalLight.sock_closed, raise.
  destruct (_closed (LocalLight._sock self)); reflexivity.
Qed.

(** On an open socket [_send] makes one call, [send], and hands on what it
    answers. *)
Lemma _send_open data self :
  _closed (LocalLight._sock self) = false ->
  let answer := next_send (LocalLight._sock self) in
  fst (LocalLight._send data self) =
    match answer with None => Return tt | Some e => Raise (OSError e) end /\
  after_calls self [IoSend data answer] (snd (LocalLight._send data self)) /\
  selects (LocalLight._sock (snd (LocalLight._send data self))) =
    selects (LocalLight._sock self) /\
  recvs (LocalLight._sock (snd (LocalLight._send data self))) =
    recvs (LocalLight._sock self).
Proof.
  intros Hopen; rewrite _send_eq, Hopen.
  unfold after_calls; cbn; rewrite Hopen; auto 6.
Qed.

(** On an open socket [_receive] makes one call, [recv], and hands on what
    it answers. *)
Lemma _receive_open n self :
  _closed (LocalLight._sock self) = false ->
  let answer := next_recv (LocalLight._sock self) in
  fst (LocalLight._receive n self) =
    match answer with inl data => Return data | inr e => Raise (OSError e) end /\
  after_calls self [IoRecv n answer] (snd (LocalLight._receive n self)).
Proof.
  intros Hopen; rewrite _receive_eq, Hopen.
  unfold after_calls; cbn; rewrite Hopen; auto 6.
Qed.

Lemma _flush_receive_buffer_open self :
  _closed (LocalLight._sock self) = false ->
  exists evs,
    flushed (fst (LocalLight._flush_receive_buffer self)) evs /\
    after_calls self evs (snd (LocalLight._flush_receive_buffer self)).
Proof.
  intros Hopen; rewrite _flush_receive_buffer_eq, Hopen.
  apply flush_loop_fuel; [exact Hopen | lia].
Qed.

Lemma flushed_not_diverge evs : ~ flushed Diverge evs.
Proof.
  intros Hfl; remember Diverge as res eqn:E.
  induction Hfl; try discriminate; auto.
Qed.

Lemma flushed_return_tt u evs : flushed (Return u) evs -> flushed (Return tt) evs.
Proof. destruct u; auto. Qed.

(** A query on an open socket. *)
Lemma query_open cmd self :
  _closed (LocalLight._sock self) = false ->
  exists evs,
    query_run cmd (fst (LocalLight._send_command cmd false self)) evs /\
    after_calls self evs (snd (LocalLight._send_command cmd false self)).
Proof.
  intros Hopen.
  destruct (_flush_receive_buffer_open self Hopen) as (evs & Hfl & Haft).
  unfold LocalLight._send_command; rewrite bind_eq.
  destruct (LocalLight._flush_receive_buffer self) as [[[]|e|] s1];
    cbn [fst snd] in *.
  2: { exists evs; split; [constructor|]; assumption. }
  2: { destruct (flushed_not_diverge _ Hfl). }
  assert (Hopen1 : _closed (LocalLight._sock s1) = false).
  { destruct Haft as (_ & _ & -> & _); exact Hopen. }
  destruct (_send_open (byte_string cmd) s1 Hopen1) as (Hres & Haft1 & _).
  rewrite bind_eq.
  destruct (LocalLight._send (byte_string cmd) s1) as [res2 s2];
    cbn [fst snd] in *.
  destruct (next_send (LocalLight._sock s1)) as [e|]; subst res2.
  { exists (evs ++ [IoSend (byte_string cmd) (Some e)]); split.
    - constructor; assumption.
    - eapply after_calls_trans; eassumption. }
  assert (Hopen2 : _closed (LocalLight._sock s2) = false).
  { destruct Haft1 as (_ & _ & -> & _); exact Hopen1. }
  destruct (_receive_open (response_len cmd) s2 Hopen2) as (Hres & Haft2).
  rewrite bind_eq.
  destruct (LocalLight._receive (response_len cmd) s2) as [res3 s3];
    cbn [fst snd] in *.
  assert (Haft3 : forall answer,
    after_calls s2 [IoRecv (response_len cmd) answer] s3 ->
    after_calls self
      (evs ++ [IoSend (byte_string cmd) None;
               IoRecv (response_len cmd) answer]) s3).
  { intros answer Ha.
    eapply after_calls_trans; [eassumption|].
    exact (after_calls_trans _ _ _ _ _ Haft1 Ha). }
  destruct (next_recv (LocalLight._sock s2)) as [data|e]; subst res3.
  - destruct (Nat.eqb_spec (List.length data) (response_len cmd)) as [Hlen|Hlen].
    + eexists; split; [apply query_reply; eassumption|].
      cbn; apply Haft3, Haft2.
    + eexists; split; [|cbn; apply Haft3, Haft2].
      unfold unpack at 1; rewrite length_map.
      apply query_malformed; assumption.
  - eexists; split; [apply query_recv_failed; eassumption|].
    cbn; apply Haft3, Haft2.
Qed.

Lemma query_cases cmd self :
  if _closed (LocalLight._sock self)
  then LocalLight._send_command cmd false self = (Raise DeviceDisconnected, self)
  else exists evs,
    query_run cmd (fst (LocalLight._send_command cmd false self)) evs /\
    after_calls self evs (snd (LocalLight._send_command cmd false self)).
Proof.
  destruct (_closed (LocalLight._sock self)) eqn:Hclosed.
  - unfold LocalLight._send_command; rewrite bind_eq.
    rewrite _flush_receive_buffer_eq, Hclosed; reflexivity.
  - apply query_open; exact Hclosed.
Qed.


(** C2.  While the socket is closed, [_send], [_receive] and
    [_flush_receive_buffer] raise [DeviceDisconnected] and leave the light as
    it was: no call reaches the socket (its log and its scripts are those of
    before). *)
Theorem closed_socket_raises_before_io (self : LocalLight.t) :
  _closed (LocalLight._sock self) = true ->
  (forall data, LocalLight._send data self = (Raise DeviceDisconnected, self)) /\
  (forall length,
     LocalLight._receive length self = (Raise DeviceDisconnected, self)) /\
  LocalLight._flush_receive_buffer self = (Raise DeviceDisconnected, self).
Proof.
  intros Hclosed; repeat split; intros.
  - rewrite _send_eq, Hclosed; reflexivity.
  - rewrite _receive_eq, Hclosed; reflexivity.
  - rewrite _flush_receive_buffer_eq, Hclosed; reflexivity.
Qed.

Lemma closed_socket_raises_before_io_witness :
  let self := example_light true [true] [] [inl example_clock_reply] in
  (forall data, LocalLight._send data self = (Raise DeviceDisconnected, self)) /\
  (forall length,
     LocalLight._receive length self = (Raise DeviceDisconnected, self)) /\
  LocalLight._flush_receive_buffer self = (Raise DeviceDisconnected, self).
Proof.
  apply (closed_socket_raises_before_io
           (example_light true [true] [] [inl example_clock_reply])).
  reflexivity.
Defined.

(** A command sent with [send_only=True] on an open socket: one [send]. *)
Lemma send_only_open cmd self :
  _closed (LocalLight._sock self) = false ->
  let out := LocalLight._send_command cmd true self in
  fst out =
    match next_send (LocalLight._sock self) with
    | None => Return PyNone
    | Some e => Raise (OSError e)
    end /\
  after_calls self
    [IoSend (byte_string cmd) (next_send (LocalLight._sock self))] (snd out) /\
  selects (LocalLight._sock (snd out)) = selects (LocalLight._sock self) /\
  recvs (LocalLight._sock (snd out)) = recvs (LocalLight._sock self).
Proof.
  intros Hopen.
  destruct (_send_open (byte_string cmd) self Hopen) as (Hres & Haft & Hsel & Hrcv).
  unfold LocalLight._send_command; cbv zeta; rewrite bind_eq.
  destruct (LocalLight._send (byte_string cmd) self) as [res s1];
    cbn [fst snd] in *.
  destruct (next_send (LocalLight._sock self)); subst res; cbn; auto.
Qed.

Lemma send_only_closed cmd self :
  _closed (LocalLight._sock self) = true ->
  LocalLight._send_command cmd true self = (Raise DeviceDisconnected, self).
Proof.
  intros Hclosed; unfold LocalLight._send_command; rewrite bind_eq.
  rewrite _send_eq, Hclosed; reflexivity.
Qed.

Lemma wrote_only_refl self : wrote_only self self.
Proof.
  exists []; rewrite app_nil_r; cbn; auto.
Qed.

Lemma send_only_wrote_only cmd self :
  wrote_only self (snd (LocalLight._send_command cmd true self)).
Proof.
  destruct (_closed (LocalLight._sock self)) eqn:Hclosed.
  - rewrite send_only_closed by assumption. apply wrote_only_refl.
  - destruct (send_only_open cmd self Hclosed) as (_ & Haft & Hsel & Hrcv).
    destruct Haft as (_ & _ & _ & Hcalls).
    eexists; repeat split; [exact Hcalls | reflexivity | cbn; lia | | ];
      assumption.
Qed.

(** Setting a field of the cached status does not touch the socket. *)
Lemma wrote_only_status self self' st :
  wrote_only self self' ->
  wrote_only self (AbstractLight.with_status st self').
Proof. intros H; exact H. Qed.

(** C5.  A command sent with [send_only=True] on the direct transport makes
    at most one call on the socket, the [send] of the encoded bytes: on a
    closed socket none, on an open one exactly that one, and whether the
    call returns or raises is what [send] answered.  No answer of [select]
    or [recv] is taken: there is no flush of the receive buffer and no read.
    The same holds of [turn_on], [turn_off] and [_apply_status], which send
    their command this way. *)
Theorem send_only_never_flushes_or_reads `{Imports} (cmd : Command)
  (self : LocalLight.t) :
  (if _closed (LocalLight._sock self)
   then LocalLight._send_command cmd true self = (Raise DeviceDisconnected, self)
   else
     let out := LocalLight._send_command cmd true self in
     fst out = match next_send (LocalLight._sock self) with
               | None => Return PyNone
               | Some e => Raise (OSError e)
               end /\
     calls (LocalLight._sock (snd out)) =
       calls (LocalLight._sock self) ++
       [IoSend (byte_string cmd) (next_send (LocalLight._sock self))]) /\
  wrote_only self (snd (LocalLight._send_command cmd true self)) /\
  wrote_only self (snd (AbstractLight.turn_on self)) /\
  wrote_only self (snd (AbstractLight.turn_off self)) /\
  wrote_only self (snd (AbstractLight._apply_status self)).
Proof.
  split; [|split; [|split; [|split]]].
  - destruct (_closed (LocalLight._sock self)) eqn:Hclosed.
    + apply send_only_closed; assumption.
    + destruct (send_only_open cmd self Hclosed) as (Hres & Haft & _).
      split; [exact Hres | apply Haft].
  - apply send_only_wrote_only.
  - unfold AbstractLight.turn_on; rewrite bind_eq.
    change (@AbstractLight._send_command _ LocalLight.light)
      with LocalLight._send_command.
    pose proof (send_only_wrote_only TurnON self) as Hw.
    destruct (LocalLight._send_command TurnON true self) as [[v|e|] s1];
      exact Hw.
  - unfold AbstractLight.turn_off; rewrite bind_eq.
    change (@AbstractLight._send_command _ LocalLight.light)
      with LocalLight._send_command.
    pose proof (send_only_wrote_only TurnOFF self) as Hw.
    destruct (LocalLight._send_command TurnOFF true self) as [[v|e|] s1];
      exact Hw.
  - unfold AbstractLight._apply_status; rewrite bind_eq.
    unfold AbstractLight.on_status at 1.
    destruct (make_data (AbstractLight.status self)) as [[data|e|] st];
      [|apply wrote_only_status, wrote_only_refl..].
    rewrite bind_eq.
    change (@AbstractLight._send_command _ LocalLight.light)
      with LocalLight._send_command.
    pose proof (send_only_wrote_only (from_array data)
                  (AbstractLight.with_status st self)) as Hw.
    destruct (LocalLight._send_command (from_array data) true
                (AbstractLight.with_status st self)) as [[v|e|] s1];
      exact Hw.
Qed.



(** The decoding of the six clock fields looks at the tuple only. *)
Lemma decode_keeps_light {L : Type} (data : pyval) (self : L) :
  snd ((y <- lift (getitem data 3) ;;
        mo <- lift (getitem data 4) ;;
        d <- lift (getitem data 5) ;;
        h <- lift (getitem data 6) ;;
        mi <- lift (getitem data 7) ;;
        s <- lift (getitem data 8) ;;
        bulb_date <- lift (new_datetime (y + 2000) mo d h mi s) ;;
        ret bulb_date) self) = self.
Proof.
  cbv [bind lift ret].
  repeat match goal with
         | |- context [match ?res with Return _ => _ | _ => _ end] =>
             destruct res
         end; reflexivity.
Qed.

Lemma query_keeps_status cmd (self : LocalLight.t) :
  LocalLight.status (snd (LocalLight._send_command cmd false self)) =
  LocalLight.status self.
Proof.
  pose proof (query_cases cmd self) as Hq.
  destruct (_closed (LocalLight._sock self)).
  - rewrite Hq; reflexivity.
  - destruct Hq as (evs & _ & Haft); apply Haft.
Qed.

Lemma remote_send_command_keeps_status {Api : Type} `{RemoteLight.RemoteAPI Api}
  cmd send_only (self : RemoteLight.t Api) :
  RemoteLight.status (snd (RemoteLight._send_command cmd send_only self)) =
  RemoteLight.status self.
Proof.
  unfold RemoteLight._send_command, RemoteLight._send_request.
  destruct send_only.
  - unfold RemoteLight.on_api.
    destruct (RemoteLight.api_send_command cmd (RemoteLight.macaddr self)
                (RemoteLight.api self)) as [res a]; reflexivity.
  - rewrite bind_eq; unfold RemoteLight.on_api.
    destruct (RemoteLight.api_send_request cmd (RemoteLight.macaddr self)
                (RemoteLight.api self)) as [[hexstr|e|] a]; try reflexivity.
    cbv [bind lift ret raise].
    destruct (RemoteLight.str2hexarray hexstr) as [data|e|]; try reflexivity.
    destruct (negb (List.length data =? response_len cmd)%nat); reflexivity.
Qed.

(** C9.  [get_current_time] leaves the cached status as it was, field for
    field, whether it returns a time or raises: on the direct transport and
    on the relayed one, whatever the relay does. *)
Theorem get_current_time_keeps_status `{Imports} :
  (forall self : LocalLight.t,
     LocalLight.status (snd (AbstractLight.get_current_time self)) =
     LocalLight.status self) /\
  (forall (Api : Type) (relay : RemoteLight.RemoteAPI Api)
          (self : RemoteLight.t Api),
     RemoteLight.status (snd (AbstractLight.get_current_time self)) =
     RemoteLight.status self).
Proof.
  split.
  - intros self; unfold AbstractLight.get_current_time; rewrite bind_eq.
    change (@AbstractLight._send_command _ LocalLight.light)
      with LocalLight._send_command.
    pose proof (query_keeps_status QueryCurrentTime self) as Hst.
    destruct (LocalLight._send_command QueryCurrentTime false self)
      as [[data|e|] s1]; cbn [snd] in *; try exact Hst.
    rewrite decode_keeps_light; exact Hst.
  - intros Api relay self; unfold AbstractLight.get_current_time.
    rewrite bind_eq.
    change (@AbstractLight._send_command _ RemoteLight.light)
      with (@RemoteLight._send_command Api relay).
    pose proof (remote_send_command_keeps_status QueryCurrentTime false self)
      as Hst.
    destruct (RemoteLight._send_command QueryCurrentTime false self)
      as [[data|e|] s1]; cbn [snd] in *; try exact Hst.
    rewrite decode_keeps_light; exact Hst.
Qed.

(** C6, as the spec has it, fails: a connection reset during [send] reaches
    the caller as the socket's own [ConnectionResetError], not as
    [DeviceOffline]. *)
Lemma connection_reset_is_not_device_offline :
  let self := example_light false [] [Some ConnectionResetError] [] in
  _closed (LocalLight._sock self) = false /\
  next_send (LocalLight._sock self) = Some ConnectionResetError /\
  fst (LocalLight._send [x71; x23; x0f; xa3] self) =
    Raise (OSError ConnectionResetError) /\
  fst (LocalLight._send [x71; x23; x0f; xa3] self) <> Raise DeviceOffline.
Proof.
  cbv zeta; repeat split; try reflexivity.
  cbn; discriminate.
Qed.

Lemma flushed_never_offline res evs :
  flushed res evs -> res <> Raise DeviceOffline.
Proof. induction 1; auto; discriminate. Qed.

(** C6, amended.  The direct transport does not translate what the socket
    raises: on an open socket a timeout or a reset during [send] or [recv]
    reaches the caller of [_send] and of [_receive] as that very socket
    error, and [_send_command], with or without a reply to wait for, never
    raises [DeviceOffline]. *)
Theorem socket_errors_reach_the_caller_unchanged (self : LocalLight.t) :
  _closed (LocalLight._sock self) = false ->
  (forall data e,
     next_send (LocalLight._sock self) = Some e ->
     fst (LocalLight._send data self) = Raise (OSError e)) /\
  (forall length e,
     next_recv (LocalLight._sock self) = inr e ->
     fst (LocalLight._receive length self) = Raise (OSError e)) /\
  (forall cmd send_only,
     fst (LocalLight._send_command cmd send_only self) <> Raise DeviceOffline).
Proof.
  intros Hopen; split; [|split].
  - intros data e He.
    destruct (_send_open data self Hopen) as (Hres & _).
    rewrite Hres, He; reflexivity.
  - intros n e He.
    destruct (_receive_open n self Hopen) as (Hres & _).
    rewrite Hres, He; reflexivity.
  - intros cmd [|].
    + destruct (send_only_open cmd self Hopen) as (Hres & _).
      rewrite Hres; destruct (next_send (LocalLight._sock self)); discriminate.
    + destruct (query_open cmd self Hopen) as (evs & Hrun & _).
      intros Hoff; rewrite Hoff in Hrun.
      inversion Hrun; subst.
      eapply flushed_never_offline; eauto.
Qed.

Lemma socket_errors_reach_the_caller_unchanged_witness :
  let self := example_light false [] [Some socket_timeout]
                            [inr ConnectionResetError] in
  (forall data e,
     next_send (LocalLight._sock self) = Some e ->
     fst (LocalLight._send data self) = Raise (OSError e)) /\
  (forall length e,
     next_recv (LocalLight._sock self) = inr e ->
     fst (LocalLight._receive length self) = Raise (OSError e)) /\
  (forall cmd send_only,
     fst (LocalLight._send_command cmd send_only self) <> Raise DeviceOffline).
Proof.
  apply (socket_errors_reach_the_caller_unchanged
           (example_light false [] [Some socket_timeout]
                          [inr ConnectionResetError])).
  reflexivity.
Defined.

Lemma app_two_inj {A : Type} (l1 l2 : list A) a1 b1 a2 b2 :
  l1 ++ [a1; b1] = l2 ++ [a2; b2] -> l1 = l2 /\ a1 = a2 /\ b1 = b2.
Proof.
  change (l1 ++ [a1; b1]) with (l1 ++ [a1] ++ [b1]).
  change (l2 ++ [a2; b2]) with (l2 ++ [a2] ++ [b2]).
  rewrite !app_assoc; intros E.
  apply app_inj_tail in E; destruct E as [E ->].
  apply app_inj_tail in E; destruct E as [-> ->]; auto.
Qed.

(** A flush that raised has ended on a readable socket and a [recv]. *)
Lemma flushed_raise_tail res evs :
  flushed res evs ->
  forall e, res = Raise e ->
  exists pre answer, evs = pre ++ [IoSelect true; IoRecv 255 answer].
Proof.
  induction 1 as [|c data res evs Hfl IH| |e']; intros e0 E.
  - discriminate.
  - destruct (IH e0 E) as (pre & answer & ->).
    exists (IoSelect true :: IoRecv 255 (inl (c :: data)) :: pre), answer.
    reflexivity.
  - exists [], (inl []); reflexivity.
  - exists [], (inr e'); reflexivity.
Qed.

(** The outcome of a query whose last two calls were the write of the
    command and a read that brought [reply]. *)
Lemma query_run_reply cmd res evs pre reply :
  query_run cmd res evs ->
  evs = pre ++ [IoSend (byte_string cmd) None;
                IoRecv (response_len cmd) (inl reply)] ->
  res = if (List.length reply =? response_len cmd)%nat
        then Return (PyTuple (unpack reply))
        else Raise (InvalidData (response_len cmd) (List.length reply)
                                (unpack reply)).
Proof.
  intros Hrun E; destruct Hrun as [e evs Hfl|e evs Hfl|e evs Hfl
                                  |data evs Hfl Hlen|data evs Hfl Hlen].
  - destruct (flushed_raise_tail _ _ Hfl e eq_refl) as (pre' & answer & ->).
    apply app_two_inj in E; destruct E as (_ & E & _); discriminate.
  - change (pre ++ [IoSend (byte_string cmd) None;
                    IoRecv (response_len cmd) (inl reply)])
      with (pre ++ [IoSend (byte_string cmd) None]
                ++ [IoRecv (response_len cmd) (inl reply)]) in E.
    rewrite app_assoc in E; apply app_inj_tail in E.
    destruct E as [_ E]; discriminate.
  - apply app_two_inj in E; destruct E as (_ & _ & E); discriminate.
  - apply app_two_inj in E; destruct E as (_ & _ & E).
    injection E as <-.
    rewrite (proj2 (Nat.eqb_eq _ _) Hlen); reflexivity.
  - apply app_two_inj in E; destruct E as (_ & _ & E).
    injection E as <-.
    rewrite (proj2 (Nat.eqb_neq _ _) Hlen); reflexivity.
Qed.

(** The fields that [get_current_time] reads, at offsets 3 to 8. *)
Lemma clock_fields items y mo d h mi s :
  firstn 6 (skipn 3 items) = [y; mo; d; h; mi; s] ->
  getitem (PyTuple items) 3 = Return y /\
  getitem (PyTuple items) 4 = Return mo /\
  getitem (PyTuple items) 5 = Return d /\
  getitem (PyTuple items) 6 = Return h /\
  getitem (PyTuple items) 7 = Return mi /\
  getitem (PyTuple items) 8 = Return s.
Proof.
  do 9 (destruct items as [|? items]; [discriminate|]).
  cbn; intros E; injection E as -> -> -> -> -> ->; auto 7.
Qed.

(** X19.  Take a run of [get_current_time] on the direct transport in which
    the clock query was written and the read after it brought [reply].  If
    [reply] has the declared length, the result is [datetime] of the bytes at
    offsets 3 to 8, read as year less 2000, month, day, hour, minute, second:
    with (25, 6, 15, 13, 30, 0) there, it is 2025-06-15 13:30:00.  If [reply]
    is shorter than the declared length, the call raises [InvalidData] and
    decodes nothing. *)
Theorem clock_reply_decoded_by_offset `{Imports} (self self' : LocalLight.t)
  (res : result datetime) (pre : list io) (reply : list byte) :
  AbstractLight.get_current_time self = (res, self') ->
  calls (LocalLight._sock self') =
    calls (LocalLight._sock self) ++ pre ++
    [IoSend (byte_string QueryCurrentTime) None;
     IoRecv (response_len QueryCurrentTime) (inl reply)] ->
  (List.length reply = response_len QueryCurrentTime ->
   forall y mo d h mi s,
     firstn 6 (skipn 3 (unpack reply)) = [y; mo; d; h; mi; s] ->
     res = new_datetime (y + 2000) mo d h mi s /\
     ([y; mo; d; h; mi; s] = [25; 6; 15; 13; 30; 0] ->
      res = Return (mk_datetime 2025 6 15 13 30 0))) /\
  ((List.length reply < response_len QueryCurrentTime)%nat ->
   res = Raise (InvalidData (response_len QueryCurrentTime)
                            (List.length reply) (unpack reply))).
Proof.
  intros Hrun Hcalls.
  unfold AbstractLight.get_current_time in Hrun; rewrite bind_eq in Hrun.
  change (@AbstractLight._send_command _ LocalLight.light)
    with LocalLight._send_command in Hrun.
  pose proof (query_cases QueryCurrentTime self) as Hq.
  destruct (_closed (LocalLight._sock self)).
  { rewrite Hq in Hrun; cbv beta iota in Hrun; injection Hrun as <- <-.
    rewrite <- (app_nil_r (calls (LocalLight._sock self))) in Hcalls at 1.
    apply app_inv_head in Hcalls.
    destruct pre; discriminate. }
  destruct Hq as (evs & Hq & Haft).
  destruct (LocalLight._send_command QueryCurrentTime false self)
    as [sent s1] eqn:Hsent; cbn [fst snd] in *.
  assert (Hs1 : self' = s1).
  { destruct sent as [data|e|]; try (injection Hrun as _ <-; reflexivity).
    rewrite <- (decode_keeps_light data s1), Hrun; reflexivity. }
  subst s1.
  destruct Haft as (_ & _ & _ & Hlog).
  rewrite Hlog in Hcalls; apply app_inv_head in Hcalls.
  pose proof (query_run_reply _ _ _ _ _ Hq Hcalls) as Hres.
  split.
  - intros Hlen y mo d h mi s Hfields.
    rewrite (proj2 (Nat.eqb_eq _ _) Hlen) in Hres; subst sent.
    destruct (clock_fields _ _ _ _ _ _ _ Hfields)
      as (H3 & H4 & H5 & H6 & H7 & H8).
    cbv [bind lift ret] in Hrun.
    rewrite H3, H4, H5, H6, H7, H8 in Hrun.
    assert (Hdate : res = new_datetime (y + 2000) mo d h mi s).
    { destruct (new_datetime (y + 2000) mo d h mi s); congruence. }
    split; [exact Hdate|].
    intros E; injection E as -> -> -> -> -> ->; exact Hdate.
  - intros Hlen.
    assert (Hne : (List.length reply =? response_len QueryCurrentTime)%nat
                  = false) by (apply Nat.eqb_neq; lia).
    rewrite Hne in Hres; subst sent.
    congruence.
Qed.

Lemma clock_reply_decoded_by_offset_witness :
  let self := example_light false [] [] [inl example_clock_reply] in
  let out := @AbstractLight.get_current_time example_imports _ _ self in
  (List.length example_clock_reply = 12%nat ->
   forall y mo d h mi s,
     firstn 6 (skipn 3 (unpack example_clock_reply)) = [y; mo; d; h; mi; s] ->
     fst out = new_datetime (y + 2000) mo d h mi s /\
     ([y; mo; d; h; mi; s] = [25; 6; 15; 13; 30; 0] ->
      fst out = Return (mk_datetime 2025 6 15 13 30 0))) /\
  ((List.length example_clock_reply < 12)%nat ->
   fst out = Raise (InvalidData 12 (List.length example_clock_reply)
                                (unpack example_clock_reply))).
Proof.
  intros self out.
  apply (@clock_reply_decoded_by_offset example_imports self (snd out)
           (fst out) [IoSelect false] example_clock_reply); reflexivity.
Defined.



(* ------------------------------------------------------------------ *)
(** *** The relayed transport *)

(** What [int] sees of a hexadecimal digit: it is no white space, no sign,
    no underscore and no [x], and its value is its value as a digit. *)
Lemma hexdigit_facts c :
  is_hexdigit c = true ->
  isspace c = false /\
  Ascii.eqb c "_" = false /\
  Ascii.eqb c "-" = false /\
  Ascii.eqb c "+" = false /\
  Ascii.eqb c "x" = false /\
  Ascii.eqb c "X" = false /\
  digit_value c = hexdigit c /\
  exists d, hexdigit c = Some d /\ 0 <= d <= 15.
Proof.
  destruct c as [[] [] [] [] [] [] [] []]; intros Hc;
    try discriminate Hc;
    (repeat split; try reflexivity);
    eexists; (split; [reflexivity | lia]).
Qed.

(** [int(s, 16)] of two hexadecimal digits is the number they denote. *)
Lemma int16_two_hexdigits c1 c2 :
  is_hexdigit c1 = true -> is_hexdigit c2 = true ->
  let s := String c1 (String c2 EmptyString) in
  int16 s = Return (hex_value s) /\ 0 <= hex_value s <= 255.
Proof.
  intros H1 H2.
  destruct (hexdigit_facts c1 H1)
    as (Hsp1 & Hus1 & Hm1 & Hp1 & _ & _ & Hdv1 & d1 & Hd1 & Hr1).
  destruct (hexdigit_facts c2 H2)
    as (Hsp2 & Hus2 & _ & _ & Hx2 & HX2 & Hdv2 & d2 & Hd2 & Hr2).
  cbv zeta; unfold hex_value; cbn [list_ascii_of_string fold_left].
  rewrite Hd1, Hd2; split; [|lia].
  unfold int16; cbn [list_ascii_of_string].
  assert (Hstrip : strip [c1; c2] = [c1; c2]).
  { unfold strip; cbn [lstrip]; rewrite Hsp1; cbn [rev app lstrip].
    rewrite Hsp2; reflexivity. }
  rewrite Hstrip, Hm1, Hp1.
  unfold unsigned16, skip_prefix.
  rewrite Hx2, HX2, andb_false_r, Hus1.
  cbn [scan_digits]; rewrite Hus1, Hus2, Hdv1, Hdv2, Hd1, Hd2.
  reflexivity.
Qed.

Lemma comprehension_map {A B} (f : A -> result B) (g : A -> B) xs :
  (forall x, In x xs -> f x = Return (g x)) ->
  comprehension f xs = Return (map g xs).
Proof.
  induction xs as [|x xs IH]; intros Hf; [reflexivity|].
  cbn [comprehension map].
  rewrite (Hf x (or_introl eq_refl)); cbn [rbind].
  rewrite IH; [reflexivity|].
  intros y Hy; apply Hf; right; exact Hy.
Qed.

(** [range(2*k, 2*n, 2)] is [2*k, 2*(k+1), ..., 2*(n-1)]. *)
Lemma range_from_even fuel : forall k n,
  (k <= n)%nat -> (n - k <= fuel)%nat ->
  range_from fuel (2 * k) (2 * n) 2 = map (Nat.mul 2) (seq k (n - k)).
Proof.
  induction fuel as [|fuel IH]; intros k n Hk Hfuel.
  - replace (n - k)%nat with 0%nat by lia; reflexivity.
  - cbn [range_from].
    destruct (Nat.ltb_spec (2 * k) (2 * n)) as [Hlt|Hge].
    + replace (2 * k + 2)%nat with (2 * S k)%nat by lia.
      rewrite IH by lia.
      replace (n - k)%nat with (S (n - S k)) by lia; reflexivity.
    + replace (n - k)%nat with 0%nat by lia; reflexivity.
Qed.

Lemma range_even n : range 0 (2 * n) 2 = map (Nat.mul 2) (seq 0 n).
Proof.
  unfold range.
  change (range_from (2 * n) (2 * 0) (2 * n) 2 = map (Nat.mul 2) (seq 0 n)).
  rewrite range_from_even by lia.
  rewrite Nat.sub_0_r; reflexivity.
Qed.

(** Two characters in a row are the slice [s[i:i+2]]. *)
Lemma substring_pair s : forall i c1 c2,
  String.get i s = Some c1 -> String.get (S i) s = Some c2 ->
  substring i 2 s = String c1 (String c2 EmptyString).
Proof.
  induction s as [|c s IH]; intros i c1 c2 H1 H2; [discriminate|].
  destruct i as [|i].
  - cbn in H1; injection H1 as ->.
    destruct s as [|c' s]; [discriminate|].
    cbn in H2; injection H2 as ->.
    cbn; destruct s; reflexivity.
  - cbn [substring]; apply IH; assumption.
Qed.

Lemma get_hexdigit s : forall i,
  forallb is_hexdigit (list_ascii_of_string s) = true ->
  (i < String.length s)%nat ->
  exists c, String.get i s = Some c /\ is_hexdigit c = true.
Proof.
  induction s as [|c s IH]; intros i Hall Hi; cbn in Hi; [lia|].
  cbn in Hall; apply andb_prop in Hall; destruct Hall as [Hc Hall].
  destruct i as [|i].
  - exists c; auto.
  - apply IH; [assumption | lia].
Qed.

(** Every slice [hexstr[2*i:2*i+2]] of a hexadecimal string of length [2*n]
    is read by [int] as the number it denotes. *)
Lemma int16_slice hexstr n i :
  forallb is_hexdigit (list_ascii_of_string hexstr) = true ->
  String.length hexstr = (2 * n)%nat ->
  (i < n)%nat ->
  int16 (substring (2 * i) 2 hexstr) =
    Return (hex_value (substring (2 * i) 2 hexstr)) /\
  0 <= hex_value (substring (2 * i) 2 hexstr) <= 255.
Proof.
  intros Hall Hlen Hi.
  destruct (get_hexdigit hexstr (2 * i) Hall) as (c1 & Hg1 & Hc1); [lia|].
  destruct (get_hexdigit hexstr (S (2 * i)) Hall) as (c2 & Hg2 & Hc2); [lia|].
  rewrite (substring_pair _ _ _ _ Hg1 Hg2).
  apply int16_two_hexdigits; assumption.
Qed.

(** C10.  On a string of [2*n] hexadecimal digits [str2hexarray] returns a
    tuple of [n] integers; the one at index [i] is the number that the two
    characters at positions [2*i] and [2*i+1] denote in base 16; so every
    one of them is between 0 and 255. *)
Theorem str2hexarray_of_hex_string (hexstr : string) (n : nat) :
  forallb is_hexdigit (list_ascii_of_string hexstr) = true ->
  String.length hexstr = (2 * n)%nat ->
  exists ls,
    RemoteLight.str2hexarray hexstr = Return ls /\
    List.length ls = n /\
    (forall i, (i < n)%nat ->
       nth_error ls i = Some (hex_value (substring (2 * i) 2 hexstr))) /\
    Forall (fun x => 0 <= x <= 255) ls.
Proof.
  intros Hall Hlen.
  exists (map (fun i => hex_value (substring i 2 hexstr))
              (map (Nat.mul 2) (seq 0 n))).
  split; [|split; [|split]].
  - unfold RemoteLight.str2hexarray; rewrite Hlen, range_even.
    apply comprehension_map.
    intros x Hx; apply in_map_iff in Hx; destruct Hx as (i & <- & Hi).
    apply in_seq in Hi.
    apply (int16_slice hexstr n i Hall Hlen); lia.
  - rewrite !length_map, length_seq; reflexivity.
  - intros i Hi.
    rewrite !nth_error_map, nth_error_seq.
    rewrite (proj2 (Nat.ltb_lt _ _) Hi); reflexivity.
  - apply Forall_forall; intros x Hx.
    apply in_map_iff in Hx; destruct Hx as (j & <- & Hj).
    apply in_map_iff in Hj; destruct Hj as (i & <- & Hi).
    apply in_seq in Hi.
    apply (int16_slice hexstr n i Hall Hlen); lia.
Qed.

Lemma str2hexarray_of_hex_string_witness :
  exists ls,
    RemoteLight.str2hexarray "0f1119060F0d1e00" = Return ls /\
    List.length ls = 8%nat /\
    (forall i, (i < 8)%nat ->
       nth_error ls i =
       Some (hex_value (substring (2 * i) 2 "0f1119060F0d1e00"))) /\
    Forall (fun x => 0 <= x <= 255) ls.
Proof.
  apply (str2hexarray_of_hex_string "0f1119060F0d1e00" 8); reflexivity.
Defined.

(** The pairs of a string of hexadecimal digits, decoded. *)
Lemma str2hexarray_hex_pairs hexstr n :
  forallb is_hexdigit (list_ascii_of_string hexstr) = true ->
  String.length hexstr = (2 * n)%nat ->
  RemoteLight.str2hexarray hexstr =
    Return (map (fun i => hex_value (substring i 2 hexstr))
                (map (Nat.mul 2) (seq 0 n))) /\
  Forall is_byte (map (fun i => hex_value (substring i 2 hexstr))
                      (map (Nat.mul 2) (seq 0 n))).
Proof.
  intros Hall Hlen; split.
  - unfold RemoteLight.str2hexarray; rewrite Hlen, range_even.
    apply comprehension_map.
    intros x Hx; apply in_map_iff in Hx; destruct Hx as (i & <- & Hi).
    apply in_seq in Hi.
    apply (int16_slice hexstr n i Hall Hlen); lia.
  - apply Forall_forall; intros x Hx.
    apply in_map_iff in Hx; destruct Hx as (j & <- & Hj).
    apply in_map_iff in Hj; destruct Hj as (i & <- & Hi).
    apply in_seq in Hi.
    apply (int16_slice hexstr n i Hall Hlen); lia.
Qed.

(** A query on the relayed transport whose relay answered [hexstr], once
    [str2hexarray] has made the tuple [data] of it. *)
Lemma remote_query_outcome {Api : Type} `{RemoteLight.RemoteAPI Api}
  (cmd : Command) (self : RemoteLight.t Api) (hexstr : string) (a' : Api)
  (data : list Z) :
  RemoteLight.api_send_request cmd (RemoteLight.macaddr self)
    (RemoteLight.api self) = (Return hexstr, a') ->
  RemoteLight.str2hexarray hexstr = Return data ->
  let res := fst (RemoteLight._send_command cmd false self) in
  ((exists expect got items, res = Raise (InvalidData expect got items)) <->
   List.length data <> response_len cmd) /\
  (List.length data <> response_len cmd ->
   res = Raise (InvalidData (response_len cmd) (List.length data) data)) /\
  (List.length data = response_len cmd -> res = Return (PyTuple data)).
Proof.
  intros Hreply Hdecode res.
  assert (Hres : res =
    if (List.length data =? response_len cmd)%nat
    then Return (PyTuple data)
    else Raise (InvalidData (response_len cmd) (List.length data) data)).
  { subst res; unfold RemoteLight._send_command, RemoteLight._send_request.
    rewrite bind_eq; unfold RemoteLight.on_api; rewrite Hreply.
    cbv [bind lift]; rewrite Hdecode.
    destruct (List.length data =? response_len cmd)%nat; reflexivity. }
  clearbody res; subst res.
  destruct (Nat.eqb_spec (List.length data) (response_len cmd)) as [Hlen|Hlen].
  - split; [split|split].
    + intros (expect & got & items & E); discriminate.
    + intros Hne; contradiction.
    + intros Hne; contradiction.
    + reflexivity.
  - split; [split|split].
    + intros _; exact Hlen.
    + intros _; eauto.
    + reflexivity.
    + intros E; contradiction.
Qed.

(** C7.  A query on the relayed transport whose relay answered with the
    hexadecimal text [hexstr] of [n] bytes, two digits a byte.  The text is
    decoded first: the tuple [data] has [n] items, the one at index [i] is
    the byte that the digits at [2*i] and [2*i+1] denote, so every item is
    between 0 and 255.  Then the length is checked as on the direct
    transport: the call raises [InvalidData] if and only if [n] is not
    [cmd.response_len], with the declared length, [n] and [data] for its
    values, and returns [data] otherwise. *)
Theorem remote_query_decodes_then_checks_length {Api : Type}
  `{RemoteLight.RemoteAPI Api} (cmd : Command) (self : RemoteLight.t Api)
  (hexstr : string) (a' : Api) (n : nat) :
  RemoteLight.api_send_request cmd (RemoteLight.macaddr self)
    (RemoteLight.api self) = (Return hexstr, a') ->
  forallb is_hexdigit (list_ascii_of_string hexstr) = true ->
  String.length hexstr = (2 * n)%nat ->
  let res := fst (RemoteLight._send_command cmd false self) in
  exists data,
    List.length data = n /\
    (forall i, (i < n)%nat ->
       nth_error data i = Some (hex_value (substring (2 * i) 2 hexstr))) /\
    Forall is_byte data /\
    ((exists expect got items, res = Raise (InvalidData expect got items)) <->
     n <> response_len cmd) /\
    (n <> response_len cmd ->
     res = Raise (InvalidData (response_len cmd) n data)) /\
    (n = response_len cmd -> res = Return (PyTuple data)).
Proof.
  intros Hrelay Hall Hlen res.
  destruct (str2hexarray_hex_pairs hexstr n Hall Hlen) as (Hdecode & Hbytes).
  set (data := map (fun i => hex_value (substring i 2 hexstr))
                   (map (Nat.mul 2) (seq 0 n))) in *.
  assert (Hcount : List.length data = n)
    by (subst data; rewrite !length_map, length_seq; reflexivity).
  pose proof (remote_query_outcome cmd self hexstr a' data Hrelay Hdecode)
    as Hout.
  cbv zeta in Hout; fold res in Hout; rewrite Hcount in Hout.
  exists data; split; [exact Hcount|]; split; [|split; [exact Hbytes|exact Hout]].
  intros i Hi; subst data.
  rewrite !nth_error_map, nth_error_seq.
  rewrite (proj2 (Nat.ltb_lt _ _) Hi); reflexivity.
Qed.

Lemma remote_query_decodes_then_checks_length_witness :
  let cmd := @QueryCurrentTime example_imports in
  let run (hexstr : string) (n : nat) :=
    let res := fst (@RemoteLight._send_command _ example_api cmd false
                      (example_remote [hexstr])) in
    exists data,
      List.length data = n /\
      (forall i, (i < n)%nat ->
         nth_error data i = Some (hex_value (substring (2 * i) 2 hexstr))) /\
      Forall is_byte data /\
      ((exists expect got items, res = Raise (InvalidData expect got items)) <->
       n <> response_len cmd) /\
      (n <> response_len cmd ->
       res = Raise (InvalidData (response_len cmd) n data)) /\
      (n = response_len cmd -> res = Return (PyTuple data)) in
  run "0f111419060F0D1E0007009a"%string 12%nat /\
  run "0f11"%string 2%nat.
Proof.
  intros cmd run; split.
  - apply (@remote_query_decodes_then_checks_length _ example_api cmd
             (example_remote ["0f111419060F0D1E0007009a"%string])
             "0f111419060F0D1E0007009a" [] 12); reflexivity.
  - apply (@remote_query_decodes_then_checks_length _ example_api cmd
             (example_remote ["0f11"%string]) "0f11" [] 2); reflexivity.
Defined.

(* ================================================================== *)
(** * Further properties *)

(** ** The flush and the reply read *)

Lemma hd_false_cases (sel : list bool) :
  hd false sel = false -> sel = [] \/ exists sel', sel = false :: sel'.
Proof.
  destruct sel as [|[|] sel']; cbn; intros E;
    [left; reflexivity | discriminate | right; eexists; reflexivity].
Qed.

Lemma flush_loop_stale chunks : forall fuel self sel rcv,
  _closed (LocalLight._sock self) = false ->
  Forall (fun chunk => chunk <> []) chunks ->
  selects (LocalLight._sock self) = repeat true (List.length chunks) ++ sel ->
  hd false sel = false ->
  recvs (LocalLight._sock self) = map inl chunks ++ rcv ->
  (List.length chunks < fuel)%nat ->
  LocalLight.flush_loop fuel self =
  (Return tt,
   advanced self (tl sel) rcv (stale_calls chunks ++ [IoSelect false])).
Proof.
  induction chunks as [|chunk chunks IH];
    intros fuel self sel rcv Hopen Hne Hsel Hhd Hrcv Hfuel;
    (destruct fuel as [|fuel]; [cbn in Hfuel; lia|]);
    destruct self as [ip [cl sl sn rc lg] st]; cbn in Hopen, Hsel, Hrcv;
    subst cl sl rc.
  - destruct (hd_false_cases sel Hhd) as [->|(sel' & ->)]; reflexivity.
  - inversion Hne as [|? ? Hchunk Hne']; subst.
    destruct chunk as [|c chunk]; [contradiction|].
    cbn in Hfuel.
    match goal with
    | |- LocalLight.flush_loop (S fuel) ?s = _ =>
        assert (Hstep : exists s1,
          LocalLight.flush_loop (S fuel) s = LocalLight.flush_loop fuel s1 /\
          s1 = advanced s (repeat true (List.length chunks) ++ sel)
                        (map inl chunks ++ rcv)
                        [IoSelect true; IoRecv 255 (inl (c :: chunk))])
    end.
    { eexists; split; [reflexivity|].
      unfold advanced; cbn; rewrite <- app_assoc; reflexivity. }
    destruct Hstep as (s1 & -> & ->).
    rewrite (IH fuel _ sel rcv); try reflexivity; try assumption; try lia.
    unfold advanced; cbn; rewrite <- !app_assoc; reflexivity.
Qed.

Lemma flush_stale_chunks self chunks sel rcv :
  _closed (LocalLight._sock self) = false ->
  Forall (fun chunk => chunk <> []) chunks ->
  selects (LocalLight._sock self) = repeat true (List.length chunks) ++ sel ->
  hd false sel = false ->
  recvs (LocalLight._sock self) = map inl chunks ++ rcv ->
  LocalLight._flush_receive_buffer self =
  (Return tt,
   advanced self (tl sel) rcv (stale_calls chunks ++ [IoSelect false])).
Proof.
  intros Hopen Hne Hsel Hhd Hrcv.
  rewrite _flush_receive_buffer_eq, Hopen.
  apply flush_loop_stale; try assumption.
  rewrite Hsel, length_app, repeat_length; lia.
Qed.

(** X1.  The flush of an open socket on which [select] reports data as
    many times as there are stale [chunks] (none of them empty), and
    nothing after that: it reads every chunk away with a [recv] of 255
    bytes, returns, and leaves the answers of [recv] that come after the
    chunks for the reads to follow.  Nothing is written and the status is
    as before. *)
Theorem flush_discards_stale_chunks (self : LocalLight.t)
  (chunks : list (list byte)) (sel : list bool)
  (rcv : list (list byte + sock_error)) :
  _closed (LocalLight._sock self) = false ->
  Forall (fun chunk => chunk <> []) chunks ->
  selects (LocalLight._sock self) = repeat true (List.length chunks) ++ sel ->
  hd false sel = false ->
  recvs (LocalLight._sock self) = map inl chunks ++ rcv ->
  LocalLight._flush_receive_buffer self =
  (Return tt,
   advanced self (tl sel) rcv (stale_calls chunks ++ [IoSelect false])).
Proof.
  intros Hopen Hne Hsel Hhd Hrcv.
  apply flush_stale_chunks; assumption.
Qed.

Lemma flush_discards_stale_chunks_witness :
  let self := example_light false [true; true; false; true] []
                [inl [x30]; inl [x31; x32]; inl example_clock_reply] in
  LocalLight._flush_receive_buffer self =
  (Return tt,
   advanced self [true] [inl example_clock_reply]
            (stale_calls [[x30]; [x31; x32]] ++ [IoSelect false])).
Proof.
  apply (flush_discards_stale_chunks
           (example_light false [true; true; false; true] []
              [inl [x30]; inl [x31; x32]; inl example_clock_reply])
           [[x30]; [x31; x32]] [false; true] [inl example_clock_reply]).
  - reflexivity.
  - repeat constructor; discriminate.
  - reflexivity.
  - reflexivity.
  - reflexivity.
Defined.

(** X2.  A query on such a socket, when the write goes through and the
    read after it brings [reply]: the stale chunks have no part in the
    result, which is the decoded [reply] if it has [response_len] bytes and
    [InvalidData] if not; the log shows the chunks read away, the write and
    the one read. *)
Theorem query_skips_stale_chunks (cmd : Command) (self : LocalLight.t)
  (chunks : list (list byte)) (sel : list bool) (reply : list byte)
  (rcv : list (list byte + sock_error)) :
  _closed (LocalLight._sock self) = false ->
  Forall (fun chunk => chunk <> []) chunks ->
  selects (LocalLight._sock self) = repeat true (List.length chunks) ++ sel ->
  hd false sel = false ->
  recvs (LocalLight._sock self) = map inl chunks ++ inl reply :: rcv ->
  next_send (LocalLight._sock self) = None ->
  let out := LocalLight._send_command cmd false self in
  fst out =
    (if (List.length reply =? response_len cmd)%nat
     then Return (PyTuple (unpack reply))
     else Raise (InvalidData (response_len cmd) (List.length reply)
                             (unpack reply))) /\
  calls (LocalLight._sock (snd out)) =
    calls (LocalLight._sock self) ++ stale_calls chunks ++
    [IoSelect false; IoSend (byte_string cmd) None;
     IoRecv (response_len cmd) (inl reply)] /\
  recvs (LocalLight._sock (snd out)) = rcv.
Proof.
  intros Hopen Hne Hsel Hhd Hrcv Hsend.
  pose proof (flush_stale_chunks self chunks sel (inl reply :: rcv)
                Hopen Hne Hsel Hhd Hrcv) as Hflush.
  cbv zeta; unfold LocalLight._send_command.
  rewrite bind_eq, Hflush, bind_eq, _send_eq.
  destruct self as [ip [cl sl sn rc lg] st]; cbn in Hopen, Hsend |- *.
  subst cl; unfold next_send in Hsend; cbn in Hsend.
  unfold next_send; cbn; rewrite Hsend; cbn.
  unfold next_recv; cbn.
  replace (List.length (unpack reply)) with (List.length reply)
    by (unfold unpack; rewrite length_map; reflexivity).
  destruct (List.length reply =? response_len cmd)%nat; cbn;
    rewrite <- !app_assoc; cbn; auto.
Qed.

Lemma query_skips_stale_chunks_witness :
  let cmd := @QueryCurrentTime example_imports in
  let self := example_light false [true] [] [inl [x30]; inl example_clock_reply] in
  let out := LocalLight._send_command cmd false self in
  fst out =
    (if (List.length example_clock_reply =? response_len cmd)%nat
     then Return (PyTuple (unpack example_clock_reply))
     else Raise (InvalidData (response_len cmd)
                             (List.length example_clock_reply)
                             (unpack example_clock_reply))) /\
  calls (LocalLight._sock (snd out)) =
    calls (LocalLight._sock self) ++ stale_calls [[x30]] ++
    [IoSelect false; IoSend (byte_string cmd) None;
     IoRecv (response_len cmd) (inl example_clock_reply)] /\
  recvs (LocalLight._sock (snd out)) = [].
Proof.
  apply (query_skips_stale_chunks (@QueryCurrentTime example_imports)
           (example_light false [true] [] [inl [x30]; inl example_clock_reply])
           [[x30]] [] example_clock_reply []).
  - reflexivity.
  - repeat constructor; discriminate.
  - reflexivity.
  - reflexivity.
  - reflexivity.
  - reflexivity.
Defined.

Lemma flushed_raise_kind res evs :
  flushed res evs ->
  forall e, res = Raise e ->
  e = DeviceDisconnected \/ exists err, e = OSError err.
Proof.
  induction 1 as [|c data res evs Hfl IH| |err]; intros e0 E;
    try discriminate; auto.
  - injection E as <-; left; reflexivity.
  - injection E as <-; right; eexists; reflexivity.
Qed.

Lemma flushed_nonempty res evs : flushed res evs -> evs <> [].
Proof. destruct 1; discriminate. Qed.

Lemma flushed_disconnected_tail res evs :
  flushed res evs ->
  res = Raise DeviceDisconnected <->
  exists pre, evs = pre ++ [IoRecv 255 (inl [])].
Proof.
  induction 1 as [|c data res evs Hfl IH| |err].
  - split; [discriminate|].
    intros (pre & E).
    change [IoSelect false] with ([] ++ [IoSelect false]) in E.
    apply app_inj_tail in E; destruct E as [_ E]; discriminate.
  - rewrite IH; split.
    + intros (pre & ->).
      exists (IoSelect true :: IoRecv 255 (inl (c :: data)) :: pre).
      reflexivity.
    + intros (pre & E).
      destruct pre as [|x [|y pre]].
      * discriminate.
      * injection E as _ _ E; destruct (flushed_nonempty _ _ Hfl E).
      * injection E as _ _ E; exists pre; exact E.
  - split; [intros _; exists [IoSelect true]; reflexivity | reflexivity].
  - split; [discriminate|].
    intros (pre & E).
    change [IoSelect true; IoRecv 255 (inr err)]
      with ([IoSelect true] ++ [IoRecv 255 (inr err)]) in E.
    apply app_inj_tail in E; destruct E as [_ E]; discriminate.
Qed.

(** X3.  The flush of an open socket raises [DeviceDisconnected] exactly
    when its last call was a [recv] that came back empty, which is how a
    peer that has closed the connection shows. *)
Theorem flush_disconnected_iff_empty_read (self : LocalLight.t) :
  _closed (LocalLight._sock self) = false ->
  let out := LocalLight._flush_receive_buffer self in
  fst out = Raise DeviceDisconnected <->
  exists pre,
    calls (LocalLight._sock (snd out)) =
    calls (LocalLight._sock self) ++ pre ++ [IoRecv 255 (inl [])].
Proof.
  intros Hopen out; subst out.
  destruct (_flush_receive_buffer_open self Hopen) as (evs & Hfl & Haft).
  destruct Haft as (_ & _ & _ & Hcalls).
  rewrite (flushed_disconnected_tail _ _ Hfl), Hcalls.
  split; intros (pre & E); exists pre.
  - rewrite E; reflexivity.
  - apply app_inv_head in E; exact E.
Qed.

Lemma flush_disconnected_iff_empty_read_witness :
  let self := example_light false [true; true] [] [inl [x30]; inl []] in
  let out := LocalLight._flush_receive_buffer self in
  fst out = Raise DeviceDisconnected <->
  exists pre,
    calls (LocalLight._sock (snd out)) =
    calls (LocalLight._sock self) ++ pre ++ [IoRecv 255 (inl [])].
Proof.
  apply (flush_disconnected_iff_empty_read
           (example_light false [true; true] [] [inl [x30]; inl []])).
  reflexivity.
Defined.

(** The outcome of a query, read off the end of its log. *)
Lemma query_reply_outcome cmd self pre reply :
  calls (LocalLight._sock (snd (LocalLight._send_command cmd false self))) =
    calls (LocalLight._sock self) ++ pre ++
    [IoSend (byte_string cmd) None; IoRecv (response_len cmd) (inl reply)] ->
  fst (LocalLight._send_command cmd false self) =
    if (List.length reply =? response_len cmd)%nat
    then Return (PyTuple (unpack reply))
    else Raise (InvalidData (response_len cmd) (List.length reply)
                            (unpack reply)).
Proof.
  intros Hcalls.
  pose proof (query_cases cmd self) as Hq.
  destruct (_closed (LocalLight._sock self)).
  - rewrite Hq in Hcalls; cbn [snd] in Hcalls.
    rewrite <- (app_nil_r (calls (LocalLight._sock self))) in Hcalls at 1.
    apply app_inv_head in Hcalls; destruct pre; discriminate.
  - destruct Hq as (evs & Hq & Haft).
    destruct Haft as (_ & _ & _ & Hlog).
    rewrite Hlog in Hcalls; apply app_inv_head in Hcalls.
    exact (query_run_reply _ _ _ _ _ Hq Hcalls).
Qed.

(** X4.  When the read after the write of a query comes back empty (the
    peer has closed the connection) and the command declares a reply, the
    query raises [InvalidData] with 0 for the length it got; it does not
    raise [DeviceDisconnected], as the flush does on an empty read. *)
Theorem query_empty_reply_is_invalid_data (cmd : Command) (self : LocalLight.t)
  (pre : list io) :
  let out := LocalLight._send_command cmd false self in
  calls (LocalLight._sock (snd out)) =
    calls (LocalLight._sock self) ++ pre ++
    [IoSend (byte_string cmd) None; IoRecv (response_len cmd) (inl [])] ->
  response_len cmd <> 0%nat ->
  fst out = Raise (InvalidData (response_len cmd) 0 []).
Proof.
  intros out Hcalls Hlen; subst out.
  rewrite (query_reply_outcome cmd self pre [] Hcalls); cbn [List.length].
  destruct (response_len cmd); [contradiction | reflexivity].
Qed.

Lemma query_empty_reply_is_invalid_data_witness :
  let cmd := @QueryStatus example_imports in
  let self := example_light false [] [] [inl []] in
  fst (LocalLight._send_command cmd false self) = Raise (InvalidData 14 0 []).
Proof.
  apply (query_empty_reply_is_invalid_data (@QueryStatus example_imports)
           (example_light false [] [] [inl []]) [IoSelect false]).
  - reflexivity.
  - discriminate.
Defined.

(** X5.  What [_send_command] of the direct transport can raise: nothing but
    [DeviceDisconnected], an error of the socket, or, for a query only,
    [InvalidData] with the declared length, the length received (which
    differs) and the bytes received. *)
Theorem local_send_command_raises (cmd : Command) (send_only : bool)
  (self : LocalLight.t) (e : exn) :
  fst (LocalLight._send_command cmd send_only self) = Raise e ->
  e = DeviceDisconnected \/
  (exists err, e = OSError err) \/
  (send_only = false /\
   exists data,
     List.length data <> response_len cmd /\
     e = InvalidData (response_len cmd) (List.length data) (unpack data)).
Proof.
  intros He.
  destruct (_closed (LocalLight._sock self)) eqn:Hclosed.
  - destruct send_only.
    + rewrite send_only_closed in He by assumption.
      injection He as <-; auto.
    + pose proof (query_cases cmd self) as Hq; rewrite Hclosed in Hq.
      rewrite Hq in He; injection He as <-; auto.
  - destruct send_only.
    + destruct (send_only_open cmd self Hclosed) as (Hres & _).
      rewrite Hres in He.
      destruct (next_send (LocalLight._sock self)); [|discriminate].
      injection He as <-; right; left; eexists; reflexivity.
    + destruct (query_open cmd self Hclosed) as (evs & Hrun & _).
      rewrite He in Hrun.
      inversion Hrun as [e' evs' Hfl|e' evs' Hfl|e' evs' Hfl| |data evs' Hfl Hlen];
        subst.
      * destruct (flushed_raise_kind _ _ Hfl e eq_refl) as [->|(err & ->)];
          [left; reflexivity | right; left; eexists; reflexivity].
      * right; left; eexists; reflexivity.
      * right; left; eexists; reflexivity.
      * right; right; split; [reflexivity|].
        exists data; split; [assumption | reflexivity].
Qed.

Lemma local_send_command_raises_witness :
  let e := InvalidData 12 4 [15; 17; 20; 25] in
  e = DeviceDisconnected \/
  (exists err, e = OSError err) \/
  (false = false /\
   exists data,
     List.length data <> 12%nat /\
     e = InvalidData 12 (List.length data) (unpack data)).
Proof.
  apply (local_send_command_raises (@QueryCurrentTime example_imports) false
           (example_light false [] [] [inl [x0f; x11; x14; x19]])).
  reflexivity.
Defined.

Lemma unpack_bytes data : Forall is_byte (unpack data).
Proof.
  unfold unpack; apply Forall_forall; intros x Hx.
  apply in_map_iff in Hx; destruct Hx as (c & <- & _).
  pose proof (Byte.to_N_bounded c); unfold is_byte; lia.
Qed.

Lemma query_returns_bytes cmd self v :
  fst (LocalLight._send_command cmd false self) = Return v ->
  exists items,
    v = PyTuple items /\
    List.length items = response_len cmd /\
    Forall is_byte items.
Proof.
  intros Hv.
  pose proof (query_cases cmd self) as Hq.
  destruct (_closed (LocalLight._sock self)).
  - rewrite Hq in Hv; discriminate.
  - destruct Hq as (evs & Hrun & _).
    rewrite Hv in Hrun; inversion Hrun; subst.
    eexists; split; [reflexivity|]; split.
    + unfold unpack; rewrite length_map; assumption.
    + apply unpack_bytes.
Qed.

(** X6.  What [_send_command] of the direct transport can return: [None] for
    a command sent without waiting for a reply; for a query a tuple of
    [response_len] integers, every one of them the value of a byte. *)
Theorem local_send_command_returns (cmd : Command) (send_only : bool)
  (self : LocalLight.t) (v : pyval) :
  fst (LocalLight._send_command cmd send_only self) = Return v ->
  if send_only then v = PyNone
  else exists items,
    v = PyTuple items /\
    List.length items = response_len cmd /\
    Forall is_byte items.
Proof.
  intros Hv.
  destruct (_closed (LocalLight._sock self)) eqn:Hclosed.
  - destruct send_only.
    + rewrite send_only_closed in Hv by assumption; discriminate.
    + pose proof (query_cases cmd self) as Hq; rewrite Hclosed in Hq.
      rewrite Hq in Hv; discriminate.
  - destruct send_only.
    + destruct (send_only_open cmd self Hclosed) as (Hres & _).
      rewrite Hres in Hv.
      destruct (next_send (LocalLight._sock self)); [discriminate|].
      injection Hv as <-; reflexivity.
    + destruct (query_open cmd self Hclosed) as (evs & Hrun & _).
      rewrite Hv in Hrun; inversion Hrun; subst.
      eexists; split; [reflexivity|]; split.
      * unfold unpack; rewrite length_map; assumption.
      * apply unpack_bytes.
Qed.

Lemma local_send_command_returns_witness :
  exists items,
    PyTuple (unpack example_clock_reply) = PyTuple items /\
    List.length items = 12%nat /\
    Forall is_byte items.
Proof.
  apply (local_send_command_returns (@QueryCurrentTime example_imports) false
           (example_light false [] [] [inl example_clock_reply])).
  reflexivity.
Defined.

(** ** The operations of the light, on the direct transport *)

Lemma new_datetime_fields y mo d h mi s dt :
  new_datetime y mo d h mi s = Return dt ->
  dt = mk_datetime y mo d h mi s /\
  1 <= y <= 9999 /\ 1 <= mo <= 12 /\ 1 <= d <= _days_in_month y mo /\
  0 <= h <= 23 /\ 0 <= mi <= 59 /\ 0 <= s <= 59.
Proof.
  unfold new_datetime.
  destruct ((1 <=? y) && (y <=? 9999) && (1 <=? mo) && (mo <=? 12)
            && (1 <=? d) && (d <=? _days_in_month y mo)
            && (0 <=? h) && (h <=? 23) && (0 <=? mi) && (mi <=? 59)
            && (0 <=? s) && (s <=? 59)) eqn:Hok; [|discriminate].
  intros E; injection E as <-.
  repeat (apply andb_prop in Hok; destruct Hok as [Hok ?]).
  repeat match goal with
         | Hle : (_ <=? _) = true |- _ => apply Z.leb_le in Hle
         end.
  auto 8.
Qed.

Lemma getitem_in items i x :
  getitem (PyTuple items) i = Return x -> In x items.
Proof.
  unfold getitem; destruct (nth_error items i) eqn:Hnth; [|discriminate].
  intros E; injection E as <-; exact (nth_error_In _ _ Hnth).
Qed.

(** X7.  A time that [get_current_time] returns on the direct transport is a
    date of the years 2000 to 2255 with every field in its range: the year
    is a byte more than 2000, and [datetime] has checked the rest. *)
Theorem local_clock_in_range `{Imports} (self : LocalLight.t) (dt : datetime) :
  fst (AbstractLight.get_current_time self) = Return dt ->
  2000 <= year dt <= 2255 /\
  1 <= month dt <= 12 /\
  1 <= day dt <= _days_in_month (year dt) (month dt) /\
  0 <= hour dt <= 23 /\
  0 <= minute dt <= 59 /\
  0 <= second dt <= 59.
Proof.
  unfold AbstractLight.get_current_time; rewrite bind_eq.
  change (@AbstractLight._send_command _ LocalLight.light)
    with LocalLight._send_command.
  pose proof (query_returns_bytes QueryCurrentTime self) as Hv.
  destruct (LocalLight._send_command QueryCurrentTime false self)
    as [[v|e|] s1]; cbn [fst] in *; try discriminate.
  destruct (Hv v eq_refl) as (items & -> & _ & Hbytes).
  cbv [bind lift ret].
  destruct (getitem (PyTuple items) 3) as [y| |] eqn:H3; try discriminate.
  destruct (getitem (PyTuple items) 4) as [mo| |]; try discriminate.
  destruct (getitem (PyTuple items) 5) as [d| |]; try discriminate.
  destruct (getitem (PyTuple items) 6) as [h| |]; try discriminate.
  destruct (getitem (PyTuple items) 7) as [mi| |]; try discriminate.
  destruct (getitem (PyTuple items) 8) as [s| |]; try discriminate.
  destruct (new_datetime (y + 2000) mo d h mi s) as [dt'| |] eqn:Hdate;
    try discriminate.
  cbn [fst]; intros E; injection E as <-.
  apply new_datetime_fields in Hdate.
  destruct Hdate as (-> & _ & Hmo & Hd & Hh & Hmi & Hs); cbn.
  apply getitem_in in H3.
  pose proof (proj1 (Forall_forall _ _) Hbytes y H3) as Hy.
  unfold is_byte in Hy.
  repeat split; try lia; tauto.
Qed.

Lemma local_clock_in_range_witness :
  let dt := mk_datetime 2025 6 15 13 30 0 in
  2000 <= year dt <= 2255 /\
  1 <= month dt <= 12 /\
  1 <= day dt <= _days_in_month (year dt) (month dt) /\
  0 <= hour dt <= 23 /\
  0 <= minute dt <= 59 /\
  0 <= second dt <= 59.
Proof.
  apply (@local_clock_in_range example_imports
           (example_light false [] [] [inl example_clock_reply])).
  reflexivity.
Defined.

Lemma bind_ret {S A} (m : M S A) s : bind m (fun a => ret a) s = m s.
Proof.
  rewrite bind_eq; destruct (m s) as [[a|e|] s']; reflexivity.
Qed.

(** X8.  On a light whose socket is closed, reading the clock, fetching the
    status data and refreshing the status raise [DeviceDisconnected] and
    leave the light as it was; pushing the status raises it as well, after
    [make_data] has read the status. *)
Theorem closed_light_operations_raise `{Imports} (self : LocalLight.t) :
  _closed (LocalLight._sock self) = true ->
  AbstractLight.get_current_time self = (Raise DeviceDisconnected, self) /\
  AbstractLight._get_status_data self = (Raise DeviceDisconnected, self) /\
  AbstractLight._update_status self = (Raise DeviceDisconnected, self) /\
  (forall data st,
     make_data (LocalLight.status self) = (Return data, st) ->
     AbstractLight._apply_status self =
     (Raise DeviceDisconnected, AbstractLight.with_status st self)).
Proof.
  intros Hclosed.
  assert (Hq : forall cmd,
    LocalLight._send_command cmd false self = (Raise DeviceDisconnected, self)).
  { intros cmd; pose proof (query_cases cmd self) as Hq.
    rewrite Hclosed in Hq; exact Hq. }
  assert (Hdata : AbstractLight._get_status_data self
                  = (Raise DeviceDisconnected, self)).
  { unfold AbstractLight._get_status_data; rewrite bind_ret; apply Hq. }
  split; [|split; [|split]].
  - unfold AbstractLight.get_current_time; rewrite bind_eq.
    change (@AbstractLight._send_command _ LocalLight.light)
      with LocalLight._send_command.
    rewrite Hq; reflexivity.
  - exact Hdata.
  - unfold AbstractLight._update_status; rewrite bind_eq, Hdata; reflexivity.
  - intros data st Hmake.
    unfold AbstractLight._apply_status; rewrite bind_eq.
    unfold AbstractLight.on_status at 1.
    change (@AbstractLight.status _ LocalLight.light self)
      with (LocalLight.status self).
    rewrite Hmake, bind_eq.
    change (@AbstractLight._send_command _ LocalLight.light)
      with LocalLight._send_command.
    rewrite send_only_closed by exact Hclosed; reflexivity.
Qed.

Lemma closed_light_operations_raise_witness :
  let self := example_light true [] [] [inl example_clock_reply] in
  @AbstractLight.get_current_time example_imports _ _ self
    = (Raise DeviceDisconnected, self) /\
  @AbstractLight._get_status_data example_imports _ _ self
    = (Raise DeviceDisconnected, self) /\
  @AbstractLight._update_status example_imports _ _ self
    = (Raise DeviceDisconnected, self) /\
  (forall data st,
     @make_data example_imports (LocalLight.status self) = (Return data, st) ->
     @AbstractLight._apply_status example_imports _ _ self =
     (Raise DeviceDisconnected, AbstractLight.with_status st self)).
Proof.
  apply (@closed_light_operations_raise example_imports
           (example_light true [] [] [inl example_clock_reply])).
  reflexivity.
Defined.


(** X10.  [_apply_status] on the direct transport: when [make_data] raises,
    that is the result and nothing reaches the socket; when it returns
    [data], the one call on an open socket is the [send] of the bytes of
    [Command.from_array(data)], and the result is what [send] answers. *)
Theorem apply_status_sends_made_data `{Imports} (self : LocalLight.t) :
  let out := AbstractLight._apply_status self in
  match make_data (LocalLight.status self) with
  | (Return data, st) =>
      LocalLight.status (snd out) = st /\
      if _closed (LocalLight._sock self)
      then out = (Raise DeviceDisconnected, AbstractLight.with_status st self)
      else
        calls (LocalLight._sock (snd out)) =
          calls (LocalLight._sock self) ++
          [IoSend (byte_string (from_array data))
                  (next_send (LocalLight._sock self))] /\
        fst out = match next_send (LocalLight._sock self) with
                  | None => Return tt
                  | Some e => Raise (OSError e)
                  end
  | (Raise e, st) => out = (Raise e, AbstractLight.with_status st self)
  | (Diverge, st) => out = (Diverge, AbstractLight.with_status st self)
  end.
Proof.
  intros out.
  assert (Hout : out =
    match make_data (LocalLight.status self) with
    | (Return data, st) =>
        match LocalLight._send_command (from_array data) true
                (AbstractLight.with_status st self) with
        | (Return _, s') => (Return tt, s')
        | (Raise e, s') => (Raise e, s')
        | (Diverge, s') => (Diverge, s')
        end
    | (Raise e, st) => (Raise e, AbstractLight.with_status st self)
    | (Diverge, st) => (Diverge, AbstractLight.with_status st self)
    end).
  { subst out; unfold AbstractLight._apply_status; rewrite bind_eq.
    unfold AbstractLight.on_status.
    change (@AbstractLight.status _ LocalLight.light self)
      with (LocalLight.status self).
    destruct (make_data (LocalLight.status self)) as [[data|e|] st];
      reflexivity. }
  clearbody out; subst out.
  destruct (make_data (LocalLight.status self)) as [[data|e|] st];
    try reflexivity.
  set (self1 := AbstractLight.with_status st self).
  assert (Hsock : LocalLight._sock self1 = LocalLight._sock self)
    by reflexivity.
  destruct (_closed (LocalLight._sock self)) eqn:Hclosed.
  - rewrite send_only_closed by (rewrite Hsock; exact Hclosed).
    split; reflexivity.
  - destruct (send_only_open (from_array data) self1) as (Hres & Haft & _);
      [rewrite Hsock; exact Hclosed|].
    destruct Haft as (_ & Hst & _ & Hcalls).
    rewrite Hsock in *.
    destruct (LocalLight._send_command (from_array data) true self1)
      as [res s2]; cbn [fst snd] in *; subst res.
    destruct (next_send (LocalLight._sock self)); cbn; auto.
Qed.

(** X11.  On any transport, when the clock query hands back a tuple of
    fewer than nine items, [get_current_time] raises [IndexError]: the six
    fields are looked up before [datetime] sees any of them. *)
Theorem clock_short_tuple_raises_index_error `{Imports} {L : Type}
  `{AbstractLight.t L} (self s1 : L) (items : list Z) :
  AbstractLight._send_command QueryCurrentTime false self
    = (Return (PyTuple items), s1) ->
  (List.length items < 9)%nat ->
  AbstractLight.get_current_time self = (Raise IndexError, s1).
Proof.
  intros Hq Hlen.
  unfold AbstractLight.get_current_time; rewrite bind_eq, Hq.
  do 9 (destruct items as [|? items]; [reflexivity|]).
  cbn in Hlen; lia.
Qed.

Lemma clock_short_tuple_raises_index_error_witness :
  let self := example_light false [] [] [inl [x0f; x11; x14; x19]] in
  @AbstractLight.get_current_time (example_imports_clock 4) _ _ self =
  (Raise IndexError,
   advanced self [] []
     [IoSelect false; IoSend [x11; x1a; x1b; x0f; x55] None;
      IoRecv 4 (inl [x0f; x11; x14; x19])]).
Proof.
  apply (@clock_short_tuple_raises_index_error (example_imports_clock 4) _ _
           (example_light false [] [] [inl [x0f; x11; x14; x19]]) _
           [15; 17; 20; 25]).
  - reflexivity.
  - cbn; lia.
Defined.

(** X20.  On any transport, when the clock query hands back a tuple whose
    items at offsets 3 to 8 are [y], [mo], [d], [h], [mi], [s], the result of
    [get_current_time] is that of [datetime(y + 2000, mo, d, h, mi, s)] and
    the transport is left as the query left it: with 25, 6, 15, 13, 30, 0
    there, the date 2025-06-15 13:30:00. *)
Theorem clock_tuple_decoded_by_offset `{Imports} {L : Type}
  `{AbstractLight.t L} (self s1 : L) (items : list Z) (y mo d h mi s : Z) :
  AbstractLight._send_command QueryCurrentTime false self
    = (Return (PyTuple items), s1) ->
  firstn 6 (skipn 3 items) = [y; mo; d; h; mi; s] ->
  AbstractLight.get_current_time self
    = (new_datetime (y + 2000) mo d h mi s, s1) /\
  ([y; mo; d; h; mi; s] = [25; 6; 15; 13; 30; 0] ->
   AbstractLight.get_current_time self
     = (Return (mk_datetime 2025 6 15 13 30 0), s1)).
Proof.
  intros Hq Hfields.
  assert (Hdate : AbstractLight.get_current_time self
                  = (new_datetime (y + 2000) mo d h mi s, s1)).
  { unfold AbstractLight.get_current_time; rewrite bind_eq, Hq.
    destruct (clock_fields _ _ _ _ _ _ _ Hfields)
      as (H3 & H4 & H5 & H6 & H7 & H8).
    cbv [bind lift ret]; rewrite H3, H4, H5, H6, H7, H8.
    destruct (new_datetime (y + 2000) mo d h mi s); reflexivity. }
  split; [exact Hdate|].
  intros E; injection E as -> -> -> -> -> ->; exact Hdate.
Qed.

Lemma clock_tuple_decoded_by_offset_witness :
  let self := example_remote ["0f111419060f0d1e0007009a"%string] in
  @AbstractLight.get_current_time example_imports _
    (@RemoteLight.light _ example_api) self
    = (new_datetime (25 + 2000) 6 15 13 30 0, example_remote []) /\
  ([25; 6; 15; 13; 30; 0] = [25; 6; 15; 13; 30; 0] ->
   @AbstractLight.get_current_time example_imports _
     (@RemoteLight.light _ example_api) self
     = (Return (mk_datetime 2025 6 15 13 30 0), example_remote [])).
Proof.
  apply (@clock_tuple_decoded_by_offset example_imports _
           (@RemoteLight.light _ example_api)
           (example_remote ["0f111419060f0d1e0007009a"%string])
           (example_remote [])
           [15; 17; 20; 25; 6; 15; 13; 30; 0; 7; 0; 154]); reflexivity.
Defined.

(** ** The relayed transport, further *)

Lemma string_pairs_ind (P : string -> Prop) :
  P EmptyString ->
  (forall c, P (String c EmptyString)) ->
  (forall c1 c2 s, P s -> P (String c1 (String c2 s))) ->
  forall s, P s.
Proof.
  intros H0 H1 H2 s.
  assert (Hboth : P s /\ forall c, P (String c s)).
  { induction s as [|c' s [IHs IHc]].
    - split; [exact H0 | exact H1].
    - split; [apply IHc|].
      intros c; apply H2; exact IHs. }
  exact (proj1 Hboth).
Qed.

Lemma range_from_shift fuel : forall start stop,
  range_from fuel (S (S start)) (S (S stop)) 2 =
  map (fun i => S (S i)) (range_from fuel start stop 2).
Proof.
  induction fuel as [|fuel IH]; intros start stop; [reflexivity|].
  cbn [range_from].
  change (S (S start) <? S (S stop))%nat with (start <? stop)%nat.
  destruct (start <? stop)%nat; [|reflexivity].
  cbn [map]; f_equal.
  change (S (S start) + 2)%nat with (S (S (start + 2))).
  apply IH.
Qed.

Lemma range_from_more_fuel fuel : forall start stop,
  (stop - start <= fuel)%nat ->
  range_from (S fuel) start stop 2 = range_from fuel start stop 2.
Proof.
  induction fuel as [|fuel IH]; intros start stop Hfuel.
  - cbn [range_from].
    destruct (Nat.ltb_spec start stop); [lia | reflexivity].
  - change (range_from (S (S fuel)) start stop 2)
      with (if (start <? stop)%nat
            then start :: range_from (S fuel) (start + 2) stop 2
            else []).
    change (range_from (S fuel) start stop 2)
      with (if (start <? stop)%nat
            then start :: range_from fuel (start + 2) stop 2
            else []).
    destruct (start <? stop)%nat; [|reflexivity].
    rewrite IH by lia; reflexivity.
Qed.

Lemma range_two_more n :
  range 0 (S (S n)) 2 = 0%nat :: map (fun i => S (S i)) (range 0 n 2).
Proof.
  unfold range.
  change (range_from (S (S n)) 0 (S (S n)) 2)
    with (0%nat :: range_from (S n) 2 (S (S n)) 2).
  rewrite range_from_shift, range_from_more_fuel by lia; reflexivity.
Qed.

Lemma comprehension_mapped {A B C} (f : B -> result C) (h : A -> B) xs :
  comprehension f (map h xs) = comprehension (fun x => f (h x)) xs.
Proof.
  induction xs as [|x xs IH]; [reflexivity|].
  cbn [map comprehension]; rewrite IH; reflexivity.
Qed.

(** [str2hexarray] two characters at a time. *)
Lemma str2hexarray_pair c1 c2 s :
  RemoteLight.str2hexarray (String c1 (String c2 s)) =
  rbind (int16 (String c1 (String c2 EmptyString))) (fun y =>
  rbind (RemoteLight.str2hexarray s) (fun ys => Return (y :: ys))).
Proof.
  unfold RemoteLight.str2hexarray.
  change (String.length (String c1 (String c2 s)))
    with (S (S (String.length s))).
  rewrite range_two_more; cbn [comprehension].
  rewrite comprehension_mapped.
  replace (substring 0 2 (String c1 (String c2 s)))
    with (String c1 (String c2 EmptyString))
    by (cbn; destruct s; reflexivity).
  reflexivity.
Qed.

Lemma str2hexarray_single c :
  RemoteLight.str2hexarray (String c EmptyString) =
  rbind (int16 (String c EmptyString)) (fun y => Return [y]).
Proof.
  unfold RemoteLight.str2hexarray; cbn [String.length].
  change (range 0 1 2) with [0%nat]; cbn [comprehension substring rbind].
  destruct (int16 (String c EmptyString)); reflexivity.
Qed.

Lemma str2hexarray_count hexstr ls :
  RemoteLight.str2hexarray hexstr = Return ls ->
  List.length ls = Nat.div2 (S (String.length hexstr)).
Proof.
  revert ls; induction hexstr as [|c|c1 c2 s IH] using string_pairs_ind;
    intros ls.
  - cbn; intros E; injection E as <-; reflexivity.
  - rewrite str2hexarray_single.
    destruct (int16 (String c EmptyString)); cbn; try discriminate.
    intros E; injection E as <-; reflexivity.
  - rewrite str2hexarray_pair.
    destruct (int16 (String c1 (String c2 EmptyString))); cbn [rbind];
      try discriminate.
    destruct (RemoteLight.str2hexarray s) as [ys| |]; cbn [rbind];
      try discriminate.
    intros E; injection E as <-.
    cbn [List.length String.length Nat.div2]; rewrite (IH ys eq_refl).
    reflexivity.
Qed.

(** X13.  When [str2hexarray] returns, the tuple has one item for every two
    characters of the string, and one more for a last character left
    alone: half the length, rounded up. *)
Theorem str2hexarray_length (hexstr : string) (ls : list Z) :
  RemoteLight.str2hexarray hexstr = Return ls ->
  List.length ls = Nat.div2 (S (String.length hexstr)).
Proof. apply str2hexarray_count. Qed.

Lemma str2hexarray_length_witness :
  List.length [15; 17; 1] = Nat.div2 (S (String.length "0f111")).
Proof.
  apply (str2hexarray_length "0f111" [15; 17; 1]); reflexivity.
Defined.

(** [struct.unpack] of a byte string and [str2hexarray] of its hexadecimal
    text are the same tuple. *)
Lemma int16_hexchars (x : byte) :
  int16 (String (hexchar (N.div (Byte.to_N x) 16))
           (String (hexchar (N.modulo (Byte.to_N x) 16)) EmptyString))
  = Return (Z.of_N (Byte.to_N x)).
Proof. destruct x; vm_compute; reflexivity. Qed.

Lemma str2hexarray_hex_text data :
  RemoteLight.str2hexarray (hexlify data) = Return (unpack data).
Proof.
  induction data as [|x data IH]; [reflexivity|].
  cbn [hexlify fold_right]; rewrite str2hexarray_pair, int16_hexchars.
  cbn [rbind]; fold (hexlify data); rewrite IH; reflexivity.
Qed.

(** X14.  [str2hexarray] undoes the hexadecimal writing of a byte string: on
    the text of [data], two digits a byte, it returns the integers that
    [struct.unpack] makes of [data] on the direct transport. *)
Theorem str2hexarray_hexlify (data : list byte) :
  RemoteLight.str2hexarray (hexlify data) = Return (unpack data).
Proof. apply str2hexarray_hex_text. Qed.

(** X15.  The two transports agree.  If the relay answers a query with the
    hexadecimal text of the bytes that the direct transport has read after
    writing the same command, [_send_command] has the same outcome on
    both: the same tuple, or [InvalidData] with the same three values. *)
Theorem transports_agree {Api : Type} `{RemoteLight.RemoteAPI Api}
  (cmd : Command) (local : LocalLight.t) (remote : RemoteLight.t Api)
  (pre : list io) (reply : list byte) (a' : Api) :
  calls (LocalLight._sock (snd (LocalLight._send_command cmd false local))) =
    calls (LocalLight._sock local) ++ pre ++
    [IoSend (byte_string cmd) None; IoRecv (response_len cmd) (inl reply)] ->
  RemoteLight.api_send_request cmd (RemoteLight.macaddr remote)
    (RemoteLight.api remote) = (Return (hexlify reply), a') ->
  fst (RemoteLight._send_command cmd false remote) =
  fst (LocalLight._send_command cmd false local).
Proof.
  intros Hlocal Hrelay.
  rewrite (query_reply_outcome cmd local pre reply Hlocal).
  unfold RemoteLight._send_command, RemoteLight._send_request.
  rewrite bind_eq; unfold RemoteLight.on_api; rewrite Hrelay.
  cbv [bind lift]; rewrite str2hexarray_hex_text.
  replace (List.length (unpack reply)) with (List.length reply)
    by (unfold unpack; rewrite length_map; reflexivity).
  destruct (List.length reply =? response_len cmd)%nat; reflexivity.
Qed.

Lemma transports_agree_witness :
  let cmd := @QueryCurrentTime example_imports in
  fst (@RemoteLight._send_command _ example_api cmd false
         (example_remote ["0f111419060f0d1e0007009a"%string])) =
  fst (LocalLight._send_command cmd false
         (example_light false [] [] [inl example_clock_reply])).
Proof.
  intros cmd.
  apply (@transports_agree _ example_api cmd
           (example_light false [] [] [inl example_clock_reply])
           (example_remote ["0f111419060f0d1e0007009a"%string])
           [IoSelect false] example_clock_reply []); reflexivity.
Defined.

Lemma int16_one_hexdigit c d :
  hexdigit c = Some d ->
  int16 (String c EmptyString) = Return d /\ 0 <= d <= 15.
Proof.
  intros Hd.
  destruct c as [[] [] [] [] [] [] [] []]; vm_compute in Hd;
    try discriminate Hd; injection Hd as <-;
    (split; [reflexivity | lia]).
Qed.

Lemma str2hexarray_lone_digit hexstr :
  forallb is_hexdigit (list_ascii_of_string hexstr) = true ->
  exists ls,
    RemoteLight.str2hexarray hexstr = Return ls /\
    forall n c,
      String.length hexstr = S (2 * n) ->
      String.get (2 * n) hexstr = Some c ->
      exists d, hexdigit c = Some d /\ nth_error ls n = Some d /\ 0 <= d <= 15.
Proof.
  induction hexstr as [|c0|c1 c2 s IH] using string_pairs_ind; intros Hall.
  - exists []; split; [reflexivity|]; intros n c Hlen; discriminate.
  - cbn in Hall; rewrite andb_true_r in Hall.
    unfold is_hexdigit in Hall.
    destruct (hexdigit c0) as [d|] eqn:Hd; [|discriminate].
    destruct (int16_one_hexdigit c0 d Hd) as (Hint & Hrange).
    exists [d]; split.
    + rewrite str2hexarray_single, Hint; reflexivity.
    + intros n c Hlen Hget.
      destruct n; [|cbn in Hlen; lia].
      cbn in Hget; injection Hget as <-.
      exists d; auto.
  - cbn in Hall.
    apply andb_prop in Hall; destruct Hall as [H1 Hall].
    apply andb_prop in Hall; destruct Hall as [H2 Hall].
    destruct (IH Hall) as (ls & Hls & Hlast).
    destruct (int16_two_hexdigits c1 c2 H1 H2) as (Hint & _).
    eexists; split.
    + rewrite str2hexarray_pair, Hint, Hls; reflexivity.
    + intros n c Hlen Hget.
      destruct n as [|n]; [cbn in Hlen; lia|].
      replace (2 * S n)%nat with (S (S (2 * n))) in Hlen, Hget by lia.
      cbn in Hlen, Hget.
      apply (Hlast n c); [lia | exact Hget].
Qed.

(** X16.  A reply of an odd number of hexadecimal digits is not turned
    down: the last digit, left alone, counts as an item of its own, with
    a value below 16; when that makes [response_len] items the query
    returns the tuple. *)
Theorem remote_accepts_odd_hex_reply {Api : Type} `{RemoteLight.RemoteAPI Api}
  (cmd : Command) (self : RemoteLight.t Api) (hexstr : string) (a' : Api)
  (n : nat) :
  RemoteLight.api_send_request cmd (RemoteLight.macaddr self)
    (RemoteLight.api self) = (Return hexstr, a') ->
  forallb is_hexdigit (list_ascii_of_string hexstr) = true ->
  String.length hexstr = S (2 * n) ->
  response_len cmd = S n ->
  exists items c d,
    fst (RemoteLight._send_command cmd false self) = Return (PyTuple items) /\
    List.length items = S n /\
    String.get (2 * n) hexstr = Some c /\
    hexdigit c = Some d /\
    nth_error items n = Some d /\
    0 <= d <= 15.
Proof.
  intros Hrelay Hall Hlen Hdeclared.
  destruct (str2hexarray_lone_digit hexstr Hall) as (ls & Hls & Hlast).
  destruct (get_hexdigit hexstr (2 * n) Hall) as (c & Hget & _); [lia|].
  destruct (Hlast n c Hlen Hget) as (d & Hd & Hnth & Hrange).
  assert (Hcount : List.length ls = S n).
  { rewrite (str2hexarray_count hexstr ls Hls), Hlen.
    cbn [Nat.div2]; rewrite Nat.div2_double; reflexivity. }
  exists ls, c, d; repeat split; try assumption; try lia.
  unfold RemoteLight._send_command, RemoteLight._send_request.
  rewrite bind_eq; unfold RemoteLight.on_api; rewrite Hrelay.
  cbv [bind lift]; rewrite Hls, Hcount, Hdeclared, Nat.eqb_refl.
  reflexivity.
Qed.

Lemma remote_accepts_odd_hex_reply_witness :
  let cmd := {| __name__ := "Query"; byte_string := [x11];
                response_len := 2 |} in
  exists items c d,
    fst (@RemoteLight._send_command _ example_api cmd false
           (example_remote ["0f1"%string])) = Return (PyTuple items) /\
    List.length items = 2%nat /\
    String.get 2 "0f1" = Some c /\
    hexdigit c = Some d /\
    nth_error items 1 = Some d /\
    0 <= d <= 15.
Proof.
  intros cmd.
  apply (@remote_accepts_odd_hex_reply _ example_api cmd
           (example_remote ["0f1"%string]) "0f1" [] 1); reflexivity.
Defined.

Lemma digit_value_hexdigit c : digit_value c = hexdigit c.
Proof. destruct c as [[] [] [] [] [] [] [] []]; reflexivity. Qed.

Lemma is_intchar_cases c :
  is_hexdigit c = true \/ isspace c = true \/
  Ascii.eqb c "_" = true \/ Ascii.eqb c "+" = true \/
  Ascii.eqb c "-" = true \/ Ascii.eqb c "x" = true \/
  Ascii.eqb c "X" = true ->
  is_intchar c = true.
Proof.
  unfold is_intchar.
  intros [->|[->|[->|[->|[->|[->| ->]]]]]];
    rewrite ?orb_true_r; reflexivity.
Qed.

Lemma forallb_rev {A} (p : A -> bool) l : forallb p (rev l) = forallb p l.
Proof.
  induction l as [|a l IH]; [reflexivity|].
  cbn [rev forallb]; rewrite forallb_app, IH; cbn [forallb].
  rewrite andb_true_r; apply andb_comm.
Qed.

Lemma lstrip_intchars l :
  forallb is_intchar (lstrip l) = true -> forallb is_intchar l = true.
Proof.
  induction l as [|c l IH]; [reflexivity|].
  cbn [lstrip]; destruct (isspace c) eqn:Hsp; [|exact (fun Hl => Hl)].
  intros Hl; cbn [forallb]; rewrite (IH Hl), andb_true_r.
  apply is_intchar_cases; auto.
Qed.

Lemma strip_intchars l :
  forallb is_intchar (strip l) = true -> forallb is_intchar l = true.
Proof.
  unfold strip; rewrite forallb_rev; intros Hl.
  apply lstrip_intchars in Hl; rewrite forallb_rev in Hl.
  apply lstrip_intchars; exact Hl.
Qed.

Lemma scan_digits_intchars s : forall prev acc v,
  scan_digits prev acc s = Some v -> forallb is_intchar s = true.
Proof.
  induction s as [|c s IH]; intros prev acc v; [reflexivity|].
  cbn [scan_digits forallb].
  destruct (Ascii.eqb c "_") eqn:Hus.
  - destruct prev; [discriminate|]; intros Hs.
    rewrite (IH _ _ _ Hs), andb_true_r.
    apply is_intchar_cases; auto.
  - destruct (digit_value c) as [d|] eqn:Hd; [|discriminate]; intros Hs.
    rewrite (IH _ _ _ Hs), andb_true_r.
    apply is_intchar_cases; left.
    unfold is_hexdigit; rewrite <- digit_value_hexdigit, Hd; reflexivity.
Qed.

Lemma digits_intchars l v :
  match l with
  | [] => None
  | c :: l' =>
      if Ascii.eqb c "_" then None else scan_digits false 0 (c :: l')
  end = Some v ->
  forallb is_intchar l = true.
Proof.
  destruct l as [|c l]; [discriminate|].
  destruct (Ascii.eqb c "_"); [discriminate|].
  apply scan_digits_intchars.
Qed.

Lemma unsigned16_intchars s v :
  unsigned16 s = Some v -> forallb is_intchar s = true.
Proof.
  unfold unsigned16, skip_prefix.
  destruct s as [|c [|x s']];
    [discriminate | apply (digits_intchars [c]) | ].
  destruct (Ascii.eqb c "0" && (Ascii.eqb x "x" || Ascii.eqb x "X"))
    eqn:Hprefix; [|apply (digits_intchars (c :: x :: s'))].
  apply andb_prop in Hprefix; destruct Hprefix as [Hc Hx].
  apply Ascii.eqb_eq in Hc; subst c.
  assert (Hxc : is_intchar x = true).
  { apply is_intchar_cases; apply orb_prop in Hx; tauto. }
  cbn [forallb]; rewrite Hxc.
  destruct s' as [|u s'']; [discriminate|].
  destruct (Ascii.eqb u "_") eqn:Hu.
  - intros Hs; apply digits_intchars in Hs.
    cbn [forallb]; rewrite Hs, andb_true_r.
    replace (is_intchar u) with true
      by (symmetry; apply is_intchar_cases; auto).
    reflexivity.
  - intros Hs; apply (digits_intchars (u :: s'')) in Hs.
    rewrite Hs; reflexivity.
Qed.

(** A string that [int(s, 16)] accepts is made of the characters of
    [is_intchar]. *)
Lemma int16_intchars s v :
  int16 s = Return v -> forallb is_intchar (list_ascii_of_string s) = true.
Proof.
  unfold int16; intros Hv; apply strip_intchars.
  destruct (strip (list_ascii_of_string s)) as [|c s']; [reflexivity|].
  cbn [forallb].
  destruct (Ascii.eqb c "-") eqn:Hminus.
  - destruct (unsigned16 s') as [u|] eqn:Hu; [|discriminate].
    rewrite (unsigned16_intchars _ _ Hu), andb_true_r.
    apply is_intchar_cases; auto 6.
  - destruct (Ascii.eqb c "+") eqn:Hplus.
    + destruct (unsigned16 s') as [u|] eqn:Hu; [|discriminate].
      rewrite (unsigned16_intchars _ _ Hu), andb_true_r.
      apply is_intchar_cases; auto 6.
    + destruct (unsigned16 (c :: s')) as [u|] eqn:Hu; [|discriminate].
      exact (unsigned16_intchars _ _ Hu).
Qed.

Lemma int16_outcome s : (exists v, int16 s = Return v) \/ int16 s = Raise ValueError.
Proof.
  unfold int16.
  match goal with
  | |- context [match ?parsed with Some _ => _ | None => _ end] =>
      destruct parsed
  end; [left; eexists; reflexivity | right; reflexivity].
Qed.

Lemma str2hexarray_outcome hexstr :
  (exists ls,
     RemoteLight.str2hexarray hexstr = Return ls /\
     forallb is_intchar (list_ascii_of_string hexstr) = true) \/
  RemoteLight.str2hexarray hexstr = Raise ValueError.
Proof.
  induction hexstr as [|c|c1 c2 s IH] using string_pairs_ind.
  - left; exists []; split; reflexivity.
  - rewrite str2hexarray_single.
    destruct (int16_outcome (String c EmptyString)) as [(v & Hv)|Hv];
      rewrite Hv; [left | right; reflexivity].
    exists [v]; split; [reflexivity | exact (int16_intchars _ _ Hv)].
  - rewrite str2hexarray_pair.
    destruct (int16_outcome (String c1 (String c2 EmptyString)))
      as [(v & Hv)|Hv]; rewrite Hv; [|right; reflexivity].
    destruct IH as [(ls & Hls & Hall)|Hls]; rewrite Hls;
      [left | right; reflexivity].
    exists (v :: ls); split; [reflexivity|].
    apply int16_intchars in Hv; cbn in Hv |- *.
    rewrite andb_true_r in Hv.
    apply andb_prop in Hv; destruct Hv as [-> ->]; exact Hall.
Qed.

(** X17.  Among the replies whose characters all have a code point below
    256: a reply with a character that [int(s, 16)] has no use for (no
    hexadecimal digit, none of the white space of [isspace], no sign,
    underscore or [x]) makes the query raise [ValueError], whatever the
    length of the reply: the length is not looked at, and [InvalidData] is
    not raised. *)
Theorem remote_reply_with_stray_character {Api : Type}
  `{RemoteLight.RemoteAPI Api} (cmd : Command) (self : RemoteLight.t Api)
  (hexstr : string) (a' : Api) :
  RemoteLight.api_send_request cmd (RemoteLight.macaddr self)
    (RemoteLight.api self) = (Return hexstr, a') ->
  forallb is_intchar (list_ascii_of_string hexstr) = false ->
  RemoteLight.str2hexarray hexstr = Raise ValueError /\
  fst (RemoteLight._send_command cmd false self) = Raise ValueError.
Proof.
  intros Hrelay Hstray.
  assert (Hdecode : RemoteLight.str2hexarray hexstr = Raise ValueError).
  { destruct (str2hexarray_outcome hexstr) as [(ls & _ & Hall)|Hraise];
      [congruence | exact Hraise]. }
  split; [exact Hdecode|].
  unfold RemoteLight._send_command, RemoteLight._send_request.
  rewrite bind_eq; unfold RemoteLight.on_api; rewrite Hrelay.
  cbv [bind lift]; rewrite Hdecode; reflexivity.
Qed.

Lemma remote_reply_with_stray_character_witness :
  let cmd := @QueryCurrentTime example_imports in
  RemoteLight.str2hexarray "0f111419060f0d1e000700zz" = Raise ValueError /\
  fst (@RemoteLight._send_command _ example_api cmd false
         (example_remote ["0f111419060f0d1e000700zz"%string]))
  = Raise ValueError.
Proof.
  intros cmd.
  apply (@remote_reply_with_stray_character _ example_api cmd
           (example_remote ["0f111419060f0d1e000700zz"%string])
           "0f111419060f0d1e000700zz" []); reflexivity.
Defined.

(** ** What the flush leaves alone *)

Lemma flush_loop_sends fuel : forall self,
  sends (LocalLight._sock (snd (LocalLight.flush_loop fuel self))) =
  sends (LocalLight._sock self).
Proof.
  induction fuel as [|fuel IH]; intros self; [reflexivity|].
  destruct self as [ip [cl sel snd rcv log] st].
  destruct sel as [|[|] sel]; try reflexivity;
    destruct cl; try reflexivity;
    destruct rcv as [|[[|c data]|e] rcv]; try reflexivity;
    cbn; cbn in IH; rewrite IH; reflexivity.
Qed.

Lemma flushed_no_send res evs :
  flushed res evs -> forallb (fun ev => negb (is_send ev)) evs = true.
Proof. induction 1; cbn; auto. Qed.

(** X18.  The flush never writes: whatever the socket answers, its calls are
    calls of [select] and [recv] only, the script of [send] is not drawn
    on, and the cached status stays as it was. *)
Theorem flush_never_writes (self : LocalLight.t) :
  let out := LocalLight._flush_receive_buffer self in
  (exists evs,
     calls (LocalLight._sock (snd out)) = calls (LocalLight._sock self) ++ evs /\
     forallb (fun ev => negb (is_send ev)) evs = true) /\
  sends (LocalLight._sock (snd out)) = sends (LocalLight._sock self) /\
  LocalLight.status (snd out) = LocalLight.status self.
Proof.
  cbv zeta.
  destruct (_closed (LocalLight._sock self)) eqn:Hclosed.
  - rewrite _flush_receive_buffer_eq, Hclosed; cbn [snd].
    split; [exists []; rewrite app_nil_r; auto | auto].
  - destruct (_flush_receive_buffer_open self Hclosed) as (evs & Hfl & Haft).
    destruct Haft as (_ & Hst & _ & Hcalls).
    split; [|split].
    + exists evs; split; [exact Hcalls | exact (flushed_no_send _ _ Hfl)].
    + rewrite _flush_receive_buffer_eq, Hclosed; apply flush_loop_sends.
    + exact Hst.
Qed.
